(** * q2bs similarity analyzer: a shallow embedding of
      [similarity_analyzer.py] and the properties of its specification.

    The embedding follows [class SimilarityAnalyzer] method by method.
    Python data is represented as follows.

    - [str]: a list of Unicode code points ([pystr]).
    - [set] of [str]: stdpp's [gset pystr].
    - a CSV row ([dict] built by [csv.DictReader]): [gmap string pyval].
    - [float]: a finite value is a rational; infinities and NaN are
      separate constructors ([pyfloat]).  The rounding done by the float
      operations is not fixed here: [int / int], [float * float] and
      [round] are fields of the class [Runtime], and the facts of IEEE
      arithmetic that a proof relies on are stated as named predicates
      on them.
    - [str.lower] needs the Unicode character database; it is a field of
      [Runtime] too, with its behaviour on ASCII text stated as a
      predicate.
    - exceptions: a method that can raise returns a [result].
    - [print] and the files written: a [world] threaded through the
      methods. *)

From Stdlib Require Import ZArith QArith Qabs Ascii String List Sorting.Sorted
  Sorting.Permutation Lia.
From stdpp Require Import gmap strings list pretty.

Local Open Scope Z_scope.

(** ** Strings *)

Definition codepoint := Z.
Definition pystr := list codepoint.

(** An ASCII literal as a Python string. *)
Definition str (s : string) : pystr :=
  map (fun a => Z.of_nat (nat_of_ascii a)) (list_ascii_of_string s).

Inductive pyval :=
  | PNone
  | PStr (s : pystr).

(** Truthiness of a value that is [None] or a [str]. *)
Definition truthy (v : pyval) : bool :=
  match v with
  | PNone => false
  | PStr [] => false
  | PStr (_ :: _) => true
  end.

(** [Py_UNICODE_ISSPACE]: the test behind [str.split()], [str.isspace] and
    the classes [\s] and [\S] of [re] on [str] patterns. *)
Definition isspace (c : codepoint) : bool :=
  ((9 <=? c) && (c <=? 13)) || ((28 <=? c) && (c <=? 32))
  || (c =? 133) || (c =? 160) || (c =? 5760)
  || ((8192 <=? c) && (c <=? 8202))
  || (c =? 8232) || (c =? 8233) || (c =? 8239) || (c =? 8287)
  || (c =? 12288).

Definition is_lower_az (c : codepoint) : bool := (97 <=? c) && (c <=? 122).
Definition is_digit09 (c : codepoint) : bool := (48 <=? c) && (c <=? 57).
Definition is_ascii (c : codepoint) : bool := (0 <=? c) && (c <? 128).

(** [str.lower] restricted to ASCII: [A-Z] goes to [a-z]. *)
Definition ascii_lower (c : codepoint) : codepoint :=
  if (65 <=? c) && (c <=? 90) then c + 32 else c.

(** What is assumed of [str.lower]: on a string of ASCII characters it
    lowers each letter in place. *)
Definition lower_on_ascii (lower : pystr -> pystr) : Prop :=
  forall s, forallb is_ascii s = true -> lower s = map ascii_lower s.

(** ** A small regular expression engine for [re.sub]

    Both uses of [re.sub] in the source replace every match by a fixed
    string.  A matcher gives, for the text starting at the current
    position, the length of the match there (if any); [re_sub] scans left
    to right, replaces the leftmost match, and resumes after it. *)

Fixpoint re_sub_from (m : pystr -> option nat) (repl : pystr)
    (skip : nat) (s : pystr) : pystr :=
  match s with
  | [] =>
      (* an empty match at the end of the text is replaced as well *)
      match skip, m [] with
      | O, Some _ => repl
      | _, _ => []
      end
  | c :: s' =>
      match skip with
      | S k => re_sub_from m repl k s'
      | O =>
          match m s with
          | Some (S k) => repl ++ re_sub_from m repl k s'
          | Some O => repl ++ c :: re_sub_from m repl 0 s'
          | None => c :: re_sub_from m repl 0 s'
          end
      end
  end.

Definition re_sub (m : pystr -> option nat) (repl : pystr) (s : pystr)
  : pystr :=
  re_sub_from m repl 0 s.

(** Matching a literal: the rest of the text after it. *)
Fixpoint match_lit (lit s : pystr) : option pystr :=
  match lit, s with
  | [], _ => Some s
  | a :: lit', b :: s' => if a =? b then match_lit lit' s' else None
  | _ :: _, [] => None
  end.

(** The longest run of characters satisfying [p] at the head of [s]. *)
Fixpoint run_length (p : codepoint -> bool) (s : pystr) : nat :=
  match s with
  | c :: s' => if p c then S (run_length p s') else O
  | [] => O
  end.

(** [://\S+] : the literal, then a greedy non-empty run of non-space. *)
Definition match_url_tail (s : pystr) : option nat :=
  match match_lit (str "://") s with
  | Some u =>
      match run_length (fun c => negb (isspace c)) u with
      | O => None
      | S k => Some (3 + S k)%nat
      end
  | None => None
  end.

(** [http[s]?://\S+] : the optional [s] is tried first, and the engine
    backtracks to the empty alternative when the tail fails. *)
Definition match_http_url (s : pystr) : option nat :=
  match match_lit (str "http") s with
  | Some r =>
      let without_s := (fun k => 4 + k)%nat <$> match_url_tail r in
      match r with
      | c :: r' =>
          if c =? 115
          then match match_url_tail r' with
               | Some k => Some (5 + k)%nat
               | None => without_s
               end
          else without_s
      | [] => without_s
      end
  | None => None
  end.

(** [[^a-z0-9\s]] : one character outside the class. *)
Definition match_not_alnum_space (s : pystr) : option nat :=
  match s with
  | c :: _ =>
      if is_lower_az c || is_digit09 c || isspace c then None else Some 1%nat
  | [] => None
  end.

(** ** [str.split()] and [str.join] *)

(** [split_from cur s]: [cur] is the word being read. *)
Fixpoint split_from (cur : pystr) (s : pystr) : list pystr :=
  match s with
  | [] => match cur with [] => [] | _ => [cur] end
  | c :: s' =>
      if isspace c
      then match cur with
           | [] => split_from [] s'
           | _ => cur :: split_from [] s'
           end
      else split_from (cur ++ [c]) s'
  end.

Definition split (s : pystr) : list pystr := split_from [] s.

Fixpoint join (sep : pystr) (ws : list pystr) : pystr :=
  match ws with
  | [] => []
  | [w] => w
  | w :: ws' => w ++ sep ++ join sep ws'
  end.

Definition space : pystr := [32].

(** ** Floats *)

(** A Python [float]: finite values are rationals. *)
Inductive pyfloat :=
  | Fin (q : Q)
  | PosInf
  | NegInf
  | NaN.

(** [x >= y] on floats; every comparison with NaN is false. *)
Definition float_ge (x y : pyfloat) : bool :=
  match x, y with
  | NaN, _ | _, NaN => false
  | _, NegInf => true
  | PosInf, _ => true
  | NegInf, _ => false
  | Fin _, PosInf => false
  | Fin a, Fin b => Qle_bool b a
  end.

Definition float_le (x y : pyfloat) : bool := float_ge y x.

(** [x > y]. *)
Definition float_gt (x y : pyfloat) : bool :=
  match x, y with
  | NaN, _ | _, NaN => false
  | NegInf, _ => false
  | _, PosInf => false
  | PosInf, _ => true
  | Fin _, NegInf => true
  | Fin a, Fin b => negb (Qle_bool a b)
  end.

(** Round to the nearest integer, ties to even. *)
Definition round_half_even (q : Q) : Z :=
  let n := Qnum q in
  let d := Zpos (Qden q) in
  let fl := n / d in
  let r2 := 2 * (n mod d) in
  if r2 <? d then fl
  else if d <? r2 then fl + 1
  else if Z.even fl then fl else fl + 1.

(** The format specification [.2f] on a finite value. *)
Definition format_2f (q : Q) : string :=
  let n := round_half_even (Qabs q * 100) in
  let sign : string := if Qle_bool 0 q then EmptyString else "-" in
  let pad : string := if n mod 100 <? 10 then "0" else EmptyString in
  sign +:+ pretty (n / 100) +:+ "." +:+ pad +:+ pretty (n mod 100).

(** ** Exceptions *)

Inductive exn :=
  | ZeroDivisionError
  | IndexError.

Inductive result (A : Type) :=
  | Ok (a : A)
  | Raise (e : exn).
Arguments Ok {A} a.
Arguments Raise {A} e.

#[global] Instance result_ret : MRet result := fun A a => Ok a.
#[global] Instance result_bind : MBind result := fun A B k r =>
  match r with
  | Ok a => k a
  | Raise e => Raise e
  end.

(** [for x in l: body], threading the loop state. *)
Fixpoint for_each {A S : Type} (l : list A) (body : A -> S -> result S)
    (s : S) : result S :=
  match l with
  | [] => Ok s
  | x :: l' => s' ← body x s; for_each l' body s'
  end.

(** [l[i]] for [0 <= i]. *)
Definition index {A : Type} (l : list A) (i : nat) : result A :=
  match l !! i with
  | Some x => Ok x
  | None => Raise IndexError
  end.

(** [range(a, b)]. *)
Definition range (a b : nat) : list nat := seq a (b - a).

(** [text[i:j]] for [0 <= i <= j]. *)
Definition slice (s : pystr) (i j : nat) : pystr := take (j - i) (drop i s).

(** ** Records of the corpus and of the results *)

(** A row of [articles.csv] as [csv.DictReader] yields it. *)
Definition article := gmap string pyval.

(** [d.get(key, default)]. *)
Definition dict_get (d : article) (key : string) (dflt : pyval) : pyval :=
  match d !! key with
  | Some v => v
  | None => dflt
  end.

(** The [{"title", "url", "date"}] object written for an article. *)
Record article_ref := {
  ref_title : pyval;
  ref_url : pyval;
  ref_date : pyval;
}.

Definition make_ref (a : article) : article_ref :=
  {| ref_title := dict_get a "title" (PStr []);
     ref_url := dict_get a "url" (PStr []);
     ref_date := dict_get a "date_parsed" (PStr []) |}.

Record similar_pair := {
  article1 : article_ref;
  article2 : article_ref;
  similarity : Q;
}.

Record report := {
  generated_at : string;
  input_directory : string;
  report_similarity_threshold : pyfloat;
  total_articles_analyzed : Z;
  (* exact_match_clusters *)
  num_clusters : Z;
  total_articles_in_clusters : Z;
  duplication_rate : string;
  largest_cluster_size : Z;
  (* similar_pairs *)
  num_pairs : Z;
  threshold : pyfloat;
  (* uniqueness_analysis *)
  truly_unique_articles : Z;
  uniqueness_rate : string;
}.

Record cluster_entry := {
  cluster_id : Z;
  size_ : Z;
  normalized_title : pystr;
  cluster_articles : list article_ref;
}.

(** A cell of [similarity_summary.csv]; the label of the pairs row is
    built from the threshold. *)
Inductive csv_cell :=
  | CellStr (s : string)
  | CellInt (n : Z)
  | CellPairsLabel (t : pyfloat).

Inductive file_content :=
  | ReportJson (r : report)
  | PairsJson (l : list similar_pair)
  | ClustersJson (l : list cluster_entry)
  | SummaryCsv (rows : list (csv_cell * csv_cell)).

(** The lines printed on standard output, one constructor per [print]. *)
Inductive message :=
  | MsgNotFound
  | MsgLoading
  | MsgLoaded (n : Z)
  | MsgAnalyzing (ngram_size : nat)
  | MsgThreshold (t : pyfloat)
  | MsgPerforming (total : Z)
  | MsgProgress (compared total : Z)
  | MsgFoundPairs (n : Z) (t : pyfloat)
  | MsgClustering
  | MsgFoundClusters (n total : Z)
  | MsgLargest (n : Z)
  | MsgGenerating
  | MsgSaving
  | MsgSaved (file : string)
  | MsgSkipping (n : Z)
  | MsgLimited (n : Z)
  | MsgConsider.

(** The attributes of a [SimilarityAnalyzer] object. *)
Record analyzer := {
  input_dir : string;
  similarity_threshold : pyfloat;
  articles : list article;
  duplicates : list similar_pair;
  clusters : list (list article);
}.

(** What a run leaves outside the object: the lines printed and the files
    written below [input_dir], both in order. *)
Record world := {
  stdout : list message;
  written : list (string * file_content);
}.

Definition print (m : message) (w : world) : world :=
  {| stdout := stdout w ++ [m]; written := written w |}.

Definition write_file (name : string) (c : file_content) (w : world) : world :=
  {| stdout := stdout w; written := written w ++ [(name, c)] |}.

Definition set_articles (self : analyzer) (v : list article) : analyzer :=
  {| input_dir := input_dir self;
     similarity_threshold := similarity_threshold self;
     articles := v;
     duplicates := duplicates self;
     clusters := clusters self |}.

Definition set_duplicates (self : analyzer) (v : list similar_pair)
  : analyzer :=
  {| input_dir := input_dir self;
     similarity_threshold := similarity_threshold self;
     articles := articles self;
     duplicates := v;
     clusters := clusters self |}.

Definition set_clusters (self : analyzer) (v : list (list article))
  : analyzer :=
  {| input_dir := input_dir self;
     similarity_threshold := similarity_threshold self;
     articles := articles self;
     duplicates := duplicates self;
     clusters := v |}.

(** [SimilarityAnalyzer.__init__]. *)
Definition init (dir : string) (thr : pyfloat) : analyzer :=
  {| input_dir := dir;
     similarity_threshold := thr;
     articles := [];
     duplicates := [];
     clusters := [] |}.

Definition len {A : Type} (l : list A) : Z := Z.of_nat (length l).

(** ** [defaultdict(list)] and [list.sort] *)

(** A dictionary with insertion order: [d[k].append(a)] on a
    [defaultdict(list)]. *)
Fixpoint dict_append (k : pystr) (a : article)
    (d : list (pystr * list article)) : list (pystr * list article) :=
  match d with
  | [] => [(k, [a])]
  | (k', v) :: d' =>
      if decide (k' = k) then (k', v ++ [a]) :: d'
      else (k', v) :: dict_append k a d'
  end.

(** [list.sort(key=len, reverse=True)].  The sort of Python is stable,
    also with [reverse=True], and the result of a stable sort is fixed by
    the keys; here it is an insertion sort that keeps equal keys in their
    original order. *)
Fixpoint insert_by_len_desc {A : Type} (c : list A) (l : list (list A))
  : list (list A) :=
  match l with
  | [] => [c]
  | x :: l' =>
      if (length x <=? length c)%nat then c :: x :: l'
      else x :: insert_by_len_desc c l'
  end.

Definition sort_by_len_desc {A : Type} (l : list (list A)) : list (list A) :=
  foldr insert_by_len_desc [] l.

(** ** The analyzer *)

(** The operations of the Python runtime that are not defined here. *)
Class Runtime := {
  (** [str.lower] *)
  lower : pystr -> pystr;
  (** [a / b] on integers for [b <> 0]: the float nearest to the quotient *)
  truediv : Z -> Z -> Q;
  (** [x * y] on floats *)
  fmul : Q -> Q -> Q;
  (** [round(x, 4)] *)
  round4 : Q -> Q;
}.

Section Analyzer.

Context {rt : Runtime}.

Definition py_truediv (a b : Z) : result Q :=
  if b =? 0 then Raise ZeroDivisionError else Ok (truediv a b).

(** [SimilarityAnalyzer.load_articles]; [csv] is what
    [list(csv.DictReader(f))] gives for [articles.csv], and [None] when
    the file does not exist.  A file that exists and that [open], the
    decoding or the [csv] module fails on is not modelled. *)
Definition load_articles (csv : option (list article))
    (self : analyzer) (w : world) : bool * analyzer * world :=
  match csv with
  | None => (false, self, print MsgNotFound w)
  | Some rows =>
      let w := print MsgLoading w in
      let self := set_articles self rows in
      let w := print (MsgLoaded (len (articles self))) w in
      (true, self, w)
  end.

(** [SimilarityAnalyzer.normalize_text]. *)
Definition normalize_text (text : pyval) : pystr :=
  if negb (truthy text) then []
  else
    match text with
    | PNone => []
    | PStr t =>
        let t := lower t in
        let t := re_sub match_http_url [] t in
        let t := re_sub match_not_alnum_space space t in
        join space (split t)
    end.

(** [SimilarityAnalyzer.generate_ngrams]. *)
Definition generate_ngrams (text : pyval) (n : nat) : gset pystr :=
  let text := normalize_text text in
  if (length text <? n)%nat then {[ text ]}
  else
    fold_left (fun ngrams i => ngrams ∪ {[ slice text i (i + n) ]})
      (range 0 (length text - n + 1)) ∅.

(** [SimilarityAnalyzer.calculate_jaccard_similarity]. *)
Definition calculate_jaccard_similarity (set1 set2 : gset pystr)
  : result Q :=
  if bool_decide (set1 = ∅) || bool_decide (set2 = ∅) then Ok 0%Q
  else
    let intersection := Z.of_nat (size (set1 ∩ set2)) in
    let union := Z.of_nat (size (set1 ∪ set2)) in
    if union =? 0 then Ok 0%Q
    else py_truediv intersection union.

(** The body of the inner loop of [find_similar_pairs]; the loop state
    is [similar_pairs], [compared] and the world. *)
Definition compare_pair (thr : pyfloat)
    (article_ngrams : list (article * gset pystr)) (total_comparisons : Z)
    (i j : nat) (st : list similar_pair * Z * world)
  : result (list similar_pair * Z * world) :=
  let '(similar_pairs, compared, w) := st in
  '(article1, ngrams1) ← index article_ngrams i;
  '(article2, ngrams2) ← index article_ngrams j;
  similarity ← calculate_jaccard_similarity ngrams1 ngrams2;
  let similar_pairs :=
    if float_ge (Fin similarity) thr
    then similar_pairs
         ++ [ {| article1 := make_ref article1;
                 article2 := make_ref article2;
                 similarity := round4 similarity |} ]
    else similar_pairs in
  let compared := compared + 1 in
  let w :=
    if compared mod 100000 =? 0
    then print (MsgProgress compared total_comparisons) w
    else w in
  Ok (similar_pairs, compared, w).

(** The two nested loops of [find_similar_pairs]. *)
Definition compare_all (thr : pyfloat)
    (article_ngrams : list (article * gset pystr)) (total_comparisons : Z)
    (w : world) : result (list similar_pair * Z * world) :=
  for_each (range 0 (length article_ngrams))
    (fun i =>
       for_each (range (i + 1) (length article_ngrams))
         (compare_pair thr article_ngrams total_comparisons i))
    ([], 0, w).

(** [SimilarityAnalyzer.find_similar_pairs]. *)
Definition find_similar_pairs (ngram_size : nat)
    (self : analyzer) (w : world)
  : result (list similar_pair * analyzer * world) :=
  let w := print (MsgAnalyzing ngram_size) w in
  let w := print (MsgThreshold (similarity_threshold self)) w in
  let article_ngrams :=
    fold_left
      (fun acc a =>
         let title := dict_get a "title" (PStr []) in
         let ngrams := generate_ngrams title ngram_size in
         acc ++ [(a, ngrams)])
      (articles self) [] in
  let total_comparisons :=
    len article_ngrams * (len article_ngrams - 1) / 2 in
  let w := print (MsgPerforming total_comparisons) w in
  '(similar_pairs, compared, w) ←
    compare_all (similarity_threshold self) article_ngrams
      total_comparisons w;
  let self := set_duplicates self similar_pairs in
  let w :=
    print (MsgFoundPairs (len similar_pairs) (similarity_threshold self)) w in
  Ok (similar_pairs, self, w).

(** The first loop of [cluster_by_exact_match]: the dictionary
    [title_groups] once every article has been seen. *)
Definition title_groups (arts : list article)
  : list (pystr * list article) :=
  fold_left
    (fun groups a =>
       let title := dict_get a "title" (PStr []) in
       let normalized := normalize_text title in
       if truthy (PStr normalized)
       then dict_append normalized a groups
       else groups)
    arts [].

(** [SimilarityAnalyzer.cluster_by_exact_match]. *)
Definition cluster_by_exact_match (self : analyzer) (w : world)
  : list (list article) * analyzer * world :=
  let w := print MsgClustering w in
  let title_groups := title_groups (articles self) in
  let clusters :=
    filter (fun arts => (2 <= length arts)%nat) (snd <$> title_groups) in
  let clusters := sort_by_len_desc clusters in
  let self := set_clusters self clusters in
  let total_duplicates := foldr Z.add 0 (len <$> clusters) in
  let w := print (MsgFoundClusters (len clusters) total_duplicates) w in
  let w :=
    match clusters with
    | c :: _ => print (MsgLargest (len c)) w
    | [] => w
    end in
  (clusters, self, w).

(** [SimilarityAnalyzer.generate_report]; [now] is
    [datetime.now().isoformat()]. *)
Definition generate_report (now : string) (self : analyzer) (w : world)
  : result (report * world) :=
  let w := print MsgGenerating w in
  let total_articles := len (articles self) in
  let num_similar_pairs := len (duplicates self) in
  let num_clusters := len (clusters self) in
  let articles_in_clusters := foldr Z.add 0 (len <$> clusters self) in
  let unique_articles := total_articles - articles_in_clusters + num_clusters in
  duplication_rate ←
    (if 0 <? total_articles
     then q ← py_truediv articles_in_clusters total_articles;
          Ok (fmul q 100)
     else Ok 0%Q);
  uniqueness_rate ←
    (if 0 <? total_articles
     then q ← py_truediv unique_articles total_articles;
          Ok (format_2f (fmul q 100) +:+ "%")
     else Ok "0%"%string);
  Ok ({| generated_at := now;
         input_directory := input_dir self;
         report_similarity_threshold := similarity_threshold self;
         total_articles_analyzed := total_articles;
         num_clusters := num_clusters;
         total_articles_in_clusters := articles_in_clusters;
         duplication_rate := format_2f duplication_rate +:+ "%";
         largest_cluster_size :=
           match clusters self with
           | c :: _ => len c
           | [] => 0
           end;
         num_pairs := num_similar_pairs;
         threshold := similarity_threshold self;
         truly_unique_articles := unique_articles;
         uniqueness_rate := uniqueness_rate |}, w).

(** The list comprehension of [save_results] over
    [enumerate(self.clusters[:100])], from index [idx] on. *)
Fixpoint clusters_data_from (idx : Z) (cs : list (list article))
  : result (list cluster_entry) :=
  match cs with
  | [] => Ok []
  | cluster :: cs' =>
      first ← index cluster 0;
      rest ← clusters_data_from (idx + 1) cs';
      Ok ({| cluster_id := idx + 1;
             size_ := len cluster;
             normalized_title :=
               normalize_text (dict_get first "title" (PStr []));
             cluster_articles := make_ref <$> cluster |} :: rest)
  end.

(** [SimilarityAnalyzer.save_results]. *)
Definition save_results (now : string) (self : analyzer) (w : world)
  : result world :=
  let w := print MsgSaving w in
  '(report, w) ← generate_report now self w;
  let w := write_file "similarity_report.json" (ReportJson report) w in
  let w := print (MsgSaved "similarity_report.json") w in
  let w :=
    match duplicates self with
    | [] => w
    | _ :: _ =>
        let w :=
          write_file "similar_pairs.json" (PairsJson (duplicates self)) w in
        print (MsgSaved "similar_pairs.json") w
    end in
  w ←
    match clusters self with
    | [] => Ok w
    | _ :: _ =>
        clusters_data ← clusters_data_from 0 (take 100 (clusters self));
        let w :=
          write_file "duplicate_clusters.json" (ClustersJson clusters_data) w in
        Ok (print (MsgSaved "duplicate_clusters.json") w)
    end;
  let w :=
    write_file "similarity_summary.csv"
      (SummaryCsv
         [ (CellStr "Metric", CellStr "Value");
           (CellStr "Total Articles", CellInt (total_articles_analyzed report));
           (CellStr "Exact Match Clusters", CellInt (num_clusters report));
           (CellStr "Articles in Clusters",
            CellInt (total_articles_in_clusters report));
           (CellStr "Duplication Rate", CellStr (duplication_rate report));
           (CellPairsLabel (similarity_threshold self),
            CellInt (num_pairs report));
           (CellStr "Truly Unique Articles",
            CellInt (truly_unique_articles report));
           (CellStr "Uniqueness Rate", CellStr (uniqueness_rate report)) ])
      w in
  Ok (print (MsgSaved "similarity_summary.csv") w).

Definition max_articles_for_pairwise : Z := 10000.

(** [SimilarityAnalyzer.analyze]; the empty dictionary returned when
    the corpus is missing is [None].  [now1] and [now2] are the clock
    readings of the two calls of [generate_report]. *)
Definition analyze (csv : option (list article)) (now1 now2 : string)
    (self : analyzer) (w : world)
  : result (option report * analyzer * world) :=
  let '(loaded, self, w) := load_articles csv self w in
  if negb loaded then Ok (None, self, w)
  else
    let '(_, self, w) := cluster_by_exact_match self w in
    '(self, w) ←
      (if len (articles self) <=? max_articles_for_pairwise
       then '(_, self, w) ← find_similar_pairs 3 self w; Ok (self, w)
       else
         let w := print (MsgSkipping (len (articles self))) w in
         let w := print (MsgLimited max_articles_for_pairwise) w in
         let w := print MsgConsider w in
         Ok (self, w));
    w ← save_results now1 self w;
    '(r, w) ← generate_report now2 self w;
    Ok (Some r, self, w).

End Analyzer.

(** ** An instance of the parameters

    Exact arithmetic in place of the float operations, and the ASCII case
    mapping in place of [str.lower]; the statements below that assume
    something of the parameters are instantiated with it. *)

Definition exact_runtime : Runtime :=
  {| lower := map ascii_lower;
     truediv := fun a b => Qred (inject_Z a / inject_Z b);
     fmul := fun x y => Qred (x * y);
     round4 := fun x => Qred (round_half_even (x * 10000) # 10000) |}.


Definition titled (t : string) (u : string) : article :=
  {[ "title"%string := PStr (str t); "url"%string := PStr (str u) ]}.

Definition empty_world : world := {| stdout := []; written := [] |}.

(** ** Definitions used in the statements *)

(** *** The normalizer *)

(** The characters of a normalized word. *)
Definition is_alnum (c : codepoint) : bool := is_lower_az c || is_digit09 c.

(** What the substitution of [[^a-z0-9\s]] by a space does to one
    character. *)
Definition keep_or_space (c : codepoint) : codepoint :=
  if is_lower_az c || is_digit09 c || isspace c then c else 32.

(** A word of a normalized title: not empty, made of [a-z0-9]. *)
Definition normal_word (w : pystr) : Prop :=
  w <> [] /\ forallb is_alnum w = true.

Definition nonspace (c : codepoint) : bool := negb (isspace c).

(** The steps of the normalizer in the words of the specification.
    "Replace every character that is not a lowercase ASCII letter, digit,
    or space with a space": *)
Definition only_alnum_space (c : codepoint) : codepoint :=
  if is_lower_az c || is_digit09 c || (c =? 32) then c else 32.

(** "collapse runs of whitespace to single spaces": *)
Fixpoint collapse_ws (s : pystr) : pystr :=
  match s with
  | [] => []
  | c :: s' =>
      if isspace c
      then match s' with
           | c' :: _ => if isspace c' then collapse_ws s' else 32 :: collapse_ws s'
           | [] => [32]
           end
      else c :: collapse_ws s'
  end.

(** "and trim ends": *)
Fixpoint lstrip (s : pystr) : pystr :=
  match s with
  | c :: s' => if isspace c then lstrip s' else s
  | [] => []
  end.

Fixpoint rstrip (s : pystr) : pystr :=
  match s with
  | [] => []
  | c :: s' =>
      match rstrip s' with
      | [] => if isspace c then [] else [c]
      | r => c :: r
      end
  end.

Definition strip (s : pystr) : pystr := rstrip (lstrip s).

(** "remove URL-shaped substrings (scheme://non-whitespace-run)", for any
    scheme: a non-empty run of letters, digits, [+], [-] and [.], then
    [://] and a non-empty run of characters that are not whitespace. *)
Definition is_scheme_char (c : codepoint) : bool :=
  is_lower_az c || is_digit09 c || (c =? 43) || (c =? 45) || (c =? 46).

Definition match_any_url (s : pystr) : option nat :=
  match run_length is_scheme_char s with
  | O => None
  | S k => (fun n => S k + n)%nat <$> match_url_tail (drop (S k) s)
  end.

(** [rest] does not go on with a character satisfying [p]. *)
Definition ends_run (p : codepoint -> bool) (rest : pystr) : Prop :=
  match rest with
  | [] => True
  | c :: _ => p c = false
  end.

(** [s] starts with a URL of scheme [http] or [https], [k] characters
    long: the scheme, [://], and the longest run [u] of characters that
    are not whitespace, which is not empty. *)
Definition http_url_prefix (s : pystr) (k : nat) : Prop :=
  exists scheme u rest,
    (scheme = str "http" \/ scheme = str "https")
    /\ s = scheme ++ str "://" ++ u ++ rest
    /\ u <> [] /\ forallb nonspace u = true /\ ends_run nonspace rest
    /\ k = length (scheme ++ str "://" ++ u).

(** The four steps in order, for a URL matcher [m]; a missing title is
    the empty string. *)
Definition pipeline (m : pystr -> option nat) (lower : pystr -> pystr)
    (text : pyval) : pystr :=
  let t := match text with PNone => [] | PStr t => t end in
  strip (collapse_ws (map only_alnum_space (re_sub m [] (lower t)))).

(** *** Pairs and clusters *)

(** The title as every method reads it: [article.get("title", default)]
    with the empty string as default. *)
Definition title_of (a : article) : pyval := dict_get a "title" (PStr []).

(** [range(m)] x [range(i + 1, m)] in the order of the nested loops. *)
Definition index_pairs (m : nat) : list (nat * nat) :=
  flat_map (fun i => map (fun j => (i, j)) (range (i + 1) m)) (range 0 m).

(** The lexicographic order on index pairs. *)
Definition lex_lt (p q : nat * nat) : Prop :=
  (fst p < fst q)%nat \/ (fst p = fst q /\ (snd p < snd q)%nat).

(** Two facts of correctly rounded division: [k / k] is exactly [1.0], and
    a quotient of [0 <= a <= b] lies between [0.0] and [1.0]. *)
Definition truediv_exact_one (div : Z -> Z -> Q) : Prop :=
  forall k, 0 < k -> (div k k == 1)%Q.

Definition truediv_in_unit (div : Z -> Z -> Q) : Prop :=
  forall a b, 0 <= a <= b -> 0 < b -> (0 <= div a b <= 1)%Q.

Section PairwiseSpec.

Context {rt : Runtime}.

(** The value of [calculate_jaccard_similarity]. *)
Definition jaccard (set1 set2 : gset pystr) : Q :=
  if bool_decide (set1 = ∅) || bool_decide (set2 = ∅) then 0%Q
  else truediv (Z.of_nat (size (set1 ∩ set2))) (Z.of_nat (size (set1 ∪ set2))).

Definition title_ngrams (n : nat) (a : article) : gset pystr :=
  generate_ngrams (title_of a) n.

(** The similarity of the articles at positions [fst p] and [snd p]. *)
Definition pair_similarity (n : nat) (arts : list article) (p : nat * nat)
  : Q :=
  jaccard (title_ngrams n (arts !!! fst p)) (title_ngrams n (arts !!! snd p)).

Definition retained (thr : pyfloat) (n : nat) (arts : list article)
    (p : nat * nat) : bool :=
  float_ge (Fin (pair_similarity n arts p)) thr.

Definition emitted (n : nat) (arts : list article) (p : nat * nat)
  : similar_pair :=
  {| article1 := make_ref (arts !!! fst p);
     article2 := make_ref (arts !!! snd p);
     similarity := round4 (pair_similarity n arts p) |}.

(** What [find_similar_pairs] returns. *)
Definition similar_pairs_spec (thr : pyfloat) (n : nat)
    (arts : list article) : list similar_pair :=
  map (emitted n arts)
    (filter (retained thr n arts) (index_pairs (length arts))).

End PairwiseSpec.

(** The progress line of [find_similar_pairs]. *)
Definition progress (compared total : Z) (w : world) : world :=
  if compared mod 100000 =? 0 then print (MsgProgress compared total) w else w.

(** [w'] is [w] with progress lines printed, and nothing else. *)
Definition only_progress (w w' : world) : Prop :=
  written w' = written w
  /\ exists extra,
       stdout w' = stdout w ++ extra
       /\ Forall (fun m => exists c t, m = MsgProgress c t) extra.

(** The elements of [l] in the order of their first occurrence. *)
Fixpoint first_seen (l : list pystr) : list pystr :=
  match l with
  | [] => []
  | k :: l' => k :: filter (fun k' => k' <> k) (first_seen l')
  end.

Section ClusterSpec.

Context {rt : Runtime}.

(** The grouping key of an article. *)
Definition key_of (a : article) : pystr := normalize_text (title_of a).

(** The articles of the corpus with key [k], in corpus order. *)
Definition members (arts : list article) (k : pystr) : list article :=
  filter (fun a => key_of a = k) arts.

(** The non-empty keys of the corpus, in the order in which they are
    first met. *)
Definition cluster_keys (arts : list article) : list pystr :=
  first_seen (filter (fun k => k <> []) (map key_of arts)).

(** The groups of the corpus, one per key, before the small ones are
    dropped and the rest is sorted. *)
Definition groups_spec (arts : list article) : list (list article) :=
  filter (fun g => (2 <= length g)%nat)
    (map (members arts) (cluster_keys arts)).

End ClusterSpec.

(** Descending order of length. *)
Definition len_ge {A : Type} (c1 c2 : list A) : Prop :=
  (length c2 <= length c1)%nat.

(** The lines that only [find_similar_pairs] prints. *)
Definition is_pairwise_msg (m : message) : bool :=
  match m with
  | MsgAnalyzing _ | MsgThreshold _ | MsgPerforming _ | MsgProgress _ _
  | MsgFoundPairs _ _ => true
  | _ => false
  end.

(** From [w] to [w'] the lines [out] are printed and the files [files]
    are written. *)
Definition emits (w w' : world) (out : list message)
    (files : list (string * file_content)) : Prop :=
  stdout w' = stdout w ++ out /\ written w' = written w ++ files.

(** The [url] column of a corpus. *)
Definition urls (arts : list article) : list pyval :=
  map (fun a => dict_get a "url" (PStr [])) arts.

(** The normalizer as the specification words it, with URLs of any
    scheme removed. *)
Definition normalize_claimed {rt : Runtime} (text : pyval) : pystr :=
  pipeline match_any_url lower text.

(** ** Sample corpora *)

Definition analyzer_of (arts : list article) (thr : pyfloat) : analyzer :=
  set_articles (init "data" thr) arts.

(** Two articles whose titles normalize to the empty string. *)
Definition untitled_corpus : list article :=
  [titled EmptyString "https://example.org/1"; titled "!!!" "https://example.org/2"].

(** Two rows with the same URL. *)
Definition shared_url_corpus : list article :=
  [titled "First" "https://example.org/a"; titled "Second" "https://example.org/a"].

(** The corpus of the end-to-end example of the specification. *)
Definition sample_corpus : list article :=
  [titled "Foo Bar" "u1"; titled "foo  bar!" "u2"; titled "Baz Qux" "u3";
   titled "Completely Different" "u4"].

(** Keys in the order [a, b, a, b]. *)
Definition tie_corpus : list article :=
  [titled "a" "u1"; titled "b" "u2"; titled "A" "u3"; titled "B" "u4"].

(** The corpus [{A, A, B}]. *)
Definition aab_corpus : list article :=
  [titled "A" "u1"; titled "A" "u2"; titled "B" "u3"].



(** ** The command line *)

(** The lines of the summary that [main] prints after the run. *)
Inductive summary_line :=
  | LineRule
  | LineComplete
  | LineTotal (n : Z)
  | LineClusters (n : Z)
  | LineDuplication (rate : string)
  | LineUniqueness (rate : string)
  | LineSavedIn (dir : string).

(** The float [0.85], the default of [--threshold]. *)
Definition default_threshold : pyfloat :=
  Fin (7656119366529843 # 9007199254740992).

Section CommandLine.

Context {rt : Runtime}.

(** [main]; the arguments are those that [argparse] has parsed,
  [threshold] being [None] when the option is not given; the exit of
  [argparse] on arguments that it refuses is not modelled.  The summary
  is printed after everything that [analyze] prints and is returned
  beside the world. *)
Definition main (input_dir : string) (threshold : option pyfloat)
  (csv : option (list article)) (now1 now2 : string) (w : world)
: result (world * list summary_line) :=
let similarity_threshold :=
  match threshold with
  | Some t => t
  | None => default_threshold
  end in
let analyzer := init input_dir similarity_threshold in
'(report, analyzer, w) ← analyze csv now1 now2 analyzer w;
match report with
| Some r =>
    Ok (w, [ LineRule; LineComplete; LineRule;
             LineTotal (total_articles_analyzed r);
             LineClusters (num_clusters r);
             LineDuplication (duplication_rate r);
             LineUniqueness (uniqueness_rate r);
             LineSavedIn input_dir ])
| None => Ok (w, [])
end.

End CommandLine.

(** ** More definitions used in the statements *)

(** [r] with another time stamp. *)
Definition restamp (now : string) (r : report) : report :=
  {| generated_at := now;
     input_directory := input_directory r;
     report_similarity_threshold := report_similarity_threshold r;
     total_articles_analyzed := total_articles_analyzed r;
     num_clusters := num_clusters r;
     total_articles_in_clusters := total_articles_in_clusters r;
     duplication_rate := duplication_rate r;
     largest_cluster_size := largest_cluster_size r;
     num_pairs := num_pairs r;
     threshold := threshold r;
     truly_unique_articles := truly_unique_articles r;
     uniqueness_rate := uniqueness_rate r |}.

(** The rows of [similarity_summary.csv] for a report. *)
Definition summary_rows (thr : pyfloat) (r : report)
  : list (csv_cell * csv_cell) :=
  [ (CellStr "Metric", CellStr "Value");
    (CellStr "Total Articles", CellInt (total_articles_analyzed r));
    (CellStr "Exact Match Clusters", CellInt (num_clusters r));
    (CellStr "Articles in Clusters", CellInt (total_articles_in_clusters r));
    (CellStr "Duplication Rate", CellStr (duplication_rate r));
    (CellPairsLabel thr, CellInt (num_pairs r));
    (CellStr "Truly Unique Articles", CellInt (truly_unique_articles r));
    (CellStr "Uniqueness Rate", CellStr (uniqueness_rate r)) ].

(** The progress lines printed while the counter of comparisons goes
    from [c] to [c + n]: one for every multiple of 100000 reached. *)
Definition progress_lines (c n total : Z) : list message :=
  (fun k => MsgProgress k total)
  <$> filter (fun k => k mod 100000 = 0) (seqZ (c + 1) n).

(** A fact of [round]: [round(1.0, 4)] is [1.0]. *)
Definition round4_keeps_one (rnd : Q -> Q) : Prop :=
  forall q, (q == 1)%Q -> (rnd q == 1)%Q.

(** [s] starts with [http://] or [https://] and one more character that
    is not whitespace. *)
Definition url_start (s : pystr) : Prop :=
  exists scheme x rest,
    (scheme = str "http" \/ scheme = str "https")
    /\ s = scheme ++ str "://" ++ x :: rest
    /\ nonspace x = true.

(** ASCII letters and digits of either case. *)
Definition is_ascii_alnum (c : codepoint) : bool :=
  is_alnum c || ((65 <=? c) && (c <=? 90)).

(** Every character of [s] is in [a-z0-9] or is a space that another
    character, not a space, follows. *)
Fixpoint single_spaced (s : pystr) : Prop :=
  match s with
  | [] => True
  | c :: s' =>
      (is_alnum c = true
       \/ (c = 32 /\ match s' with c' :: _ => c' <> 32 | [] => False end))
      /\ single_spaced s'
  end.

Section MoreSpec.

Context {rt : Runtime}.

(** The articles whose title normalizes to the empty string. *)
Definition untitled (arts : list article) : list article :=
filter (fun a => key_of a = []) arts.

(** The entry of [duplicate_clusters.json] for the cluster at position
  [idx] whose first article is [first]. *)
Definition cluster_entry_of (idx : nat) (first : article)
  (cluster : list article) : cluster_entry :=
{| cluster_id := Z.of_nat idx + 1;
   size_ := len cluster;
   normalized_title := key_of first;
   cluster_articles := make_ref <$> cluster |}.

End MoreSpec.

(** [w] with the progress lines of [n] comparisons after the first [c]. *)
Definition add_progress (c n total : Z) (w : world) : world :=
  {| stdout := stdout w ++ progress_lines c n total; written := written w |}.

(** The files that [save_results] writes, in order, for the report [r]
    and the cluster entries [data]. *)
Definition saved_files (self : analyzer) (r : report)
    (data : list cluster_entry) : list (string * file_content) :=
  [("similarity_report.json"%string, ReportJson r)]
  ++ match duplicates self with
     | [] => []
     | _ :: _ => [("similar_pairs.json"%string, PairsJson (duplicates self))]
     end
  ++ match clusters self with
     | [] => []
     | _ :: _ => [("duplicate_clusters.json"%string, ClustersJson data)]
     end
  ++ [("similarity_summary.csv"%string,
       SummaryCsv (summary_rows (similarity_threshold self) r))].

(** The lines that [save_results] prints. *)
Definition saved_lines (self : analyzer) : list message :=
  [MsgSaving; MsgGenerating; MsgSaved "similarity_report.json"]
  ++ match duplicates self with
     | [] => []
     | _ :: _ => [MsgSaved "similar_pairs.json"]
     end
  ++ match clusters self with
     | [] => []
     | _ :: _ => [MsgSaved "duplicate_clusters.json"]
     end
  ++ [MsgSaved "similarity_summary.csv"].

(** * Properties *)

#[local] Arguments float_ge : simpl never.


(** ** The normalizer *)

(** *** Character classes *)

Lemma is_alnum_not_space c : is_alnum c = true -> isspace c = false.
Proof. unfold is_alnum, is_lower_az, is_digit09, isspace. lia. Qed.

Lemma is_alnum_ascii c : is_alnum c = true -> is_ascii c = true.
Proof. unfold is_alnum, is_lower_az, is_digit09, is_ascii. lia. Qed.

Lemma is_alnum_lower c : is_alnum c = true -> ascii_lower c = c.
Proof.
  unfold is_alnum, is_lower_az, is_digit09, ascii_lower.
  intros H. destruct ((65 <=? c) && (c <=? 90)) eqn:E; [lia | reflexivity].
Qed.

Lemma is_alnum_keep c : is_alnum c = true -> keep_or_space c = c.
Proof.
  unfold is_alnum, keep_or_space. intros H.
  destruct (is_lower_az c || is_digit09 c); [reflexivity | discriminate].
Qed.

(** *** A normalized title has no URL in it *)

Lemma match_lit_app lit : forall s r, match_lit lit s = Some r -> s = lit ++ r.
Proof.
  induction lit as [|a lit IH]; intros s r H; simpl in H.
  - simpl. congruence.
  - destruct s as [|b s]; [discriminate|].
    destruct (Z.eqb_spec a b) as [->|]; [|discriminate].
    simpl. f_equal. auto.
Qed.

Lemma match_url_tail_colon s k : match_url_tail s = Some k -> In 58 s.
Proof.
  unfold match_url_tail. destruct (match_lit (str "://") s) as [u|] eqn:E; [|discriminate].
  intros _. apply match_lit_app in E. subst s. simpl. auto.
Qed.

Lemma match_http_url_colon s k : match_http_url s = Some k -> In 58 s.
Proof.
  unfold match_http_url.
  destruct (match_lit (str "http") s) as [r|] eqn:E; [|discriminate].
  apply match_lit_app in E. subst s. intros H.
  assert (In 58 r) as Hr.
  { destruct r as [|c r']; [discriminate|].
    assert (forall o : option nat, ((fun k => 4 + k)%nat <$> match_url_tail (c :: r')) = o ->
       o = Some k -> In 58 (c :: r')) as Hw.
    { intros o <- Ho. destruct (match_url_tail (c :: r')) eqn:E; [|discriminate].
      eapply match_url_tail_colon; eauto. }
    destruct (c =? 115).
    - destruct (match_url_tail r') eqn:E.
      + right. eapply match_url_tail_colon; eauto.
      + eapply Hw; eauto.
    - eapply Hw; eauto. }
  apply in_or_app. right. exact Hr.
Qed.

Lemma re_sub_http_id s :
  Forall (fun c => c <> 58) s -> re_sub match_http_url [] s = s.
Proof.
  unfold re_sub. induction s as [|c s IH]; intros H.
  - reflexivity.
  - simpl. destruct (match_http_url (c :: s)) as [k|] eqn:E.
    + apply match_http_url_colon in E. rewrite Forall_forall in H.
      apply list_elem_of_In, H in E. congruence.
    + f_equal. apply IH. inversion H; assumption.
Qed.

(** *** The second substitution, character by character *)

Lemma re_sub_class s :
  re_sub match_not_alnum_space space s = map keep_or_space s.
Proof.
  unfold re_sub. induction s as [|c s IH]; [reflexivity|].
  simpl. unfold keep_or_space.
  destruct (is_lower_az c || is_digit09 c || isspace c); simpl; rewrite IH; reflexivity.
Qed.

Lemma keep_or_space_class c :
  isspace (keep_or_space c) = false -> is_alnum (keep_or_space c) = true.
Proof.
  unfold keep_or_space, is_alnum.
  destruct (is_lower_az c || is_digit09 c) eqn:E1; simpl.
  - rewrite E1. reflexivity.
  - destruct (isspace c) eqn:E2; [congruence|]. vm_compute. discriminate.
Qed.

(** *** [split] and [join] *)

Lemma split_from_words (Q : codepoint -> bool) s : forall cur,
  forallb Q cur = true ->
  (forall c, In c s -> isspace c = false -> Q c = true) ->
  Forall (fun w => w <> [] /\ forallb Q w = true) (split_from cur s).
Proof.
  induction s as [|c s IH]; intros cur Hcur Hs; simpl.
  - destruct cur; [constructor|]. constructor; [|constructor]. split; [discriminate|assumption].
  - destruct (isspace c) eqn:E.
    + assert (Forall (fun w => w <> [] /\ forallb Q w = true) (split_from [] s)) as Hrec.
      { apply IH; [reflexivity|]. intros; apply Hs; simpl; auto. }
      destruct cur; [assumption|]. constructor; [|assumption].
      split; [discriminate|assumption].
    + apply IH.
      * rewrite forallb_app, Hcur. simpl. rewrite (Hs c); simpl; auto.
      * intros; apply Hs; simpl; auto.
Qed.

Lemma split_from_word w : forall cur rest,
  forallb (fun c => negb (isspace c)) w = true ->
  split_from cur (w ++ rest) = split_from (cur ++ w) rest.
Proof.
  induction w as [|c w IH]; intros cur rest H; simpl.
  - rewrite app_nil_r. reflexivity.
  - simpl in H. apply andb_true_iff in H as [Hc Hw].
    apply negb_true_iff in Hc. rewrite Hc.
    rewrite IH by assumption. rewrite <- app_assoc. reflexivity.
Qed.

Lemma normal_word_nonspace w :
  normal_word w -> forallb (fun c => negb (isspace c)) w = true.
Proof.
  intros [_ H]. rewrite forallb_forall in *. intros c Hc.
  rewrite (is_alnum_not_space c); auto.
Qed.

Lemma join_cons2 sep (w w' : pystr) ws :
  join sep (w :: w' :: ws) = w ++ sep ++ join sep (w' :: ws).
Proof. reflexivity. Qed.

Lemma split_from_sep cur s :
  cur <> [] -> split_from cur (space ++ s) = cur :: split_from [] s.
Proof. intros H. destruct cur; [contradiction|reflexivity]. Qed.

Lemma split_from_join ws : forall cur w,
  Forall normal_word (w :: ws) ->
  split_from cur (join space (w :: ws)) = (cur ++ w) :: ws.
Proof.
  induction ws as [|w' ws IH]; intros cur w H;
    inversion H as [|? ? Hw Hrest]; subst;
    assert (cur ++ w <> []) as Hne
      by (intros E; apply app_eq_nil in E as [_ ?]; destruct Hw; contradiction).
  - simpl. rewrite <- (app_nil_r w) at 1.
    rewrite split_from_word by (apply normal_word_nonspace; assumption).
    simpl. destruct (cur ++ w); [contradiction|reflexivity].
  - rewrite join_cons2.
    rewrite split_from_word by (apply normal_word_nonspace; assumption).
    rewrite split_from_sep by assumption.
    rewrite IH by assumption. reflexivity.
Qed.

Lemma split_join ws : Forall normal_word ws -> split (join space ws) = ws.
Proof.
  destruct ws as [|w ws]; [reflexivity|].
  intros H. unfold split. rewrite split_from_join by assumption. reflexivity.
Qed.

Lemma join_normal_chars ws :
  Forall normal_word ws ->
  forall c, In c (join space ws) -> is_alnum c = true \/ c = 32.
Proof.
  induction ws as [|w ws IH]; intros H c Hc; [destruct Hc|].
  inversion H as [|? ? [_ Hw] Hrest]; subst.
  rewrite forallb_forall in Hw.
  destruct ws as [|w' ws].
  - simpl in Hc. auto.
  - change (join space (w :: w' :: ws)) with (w ++ space ++ join space (w' :: ws)) in Hc.
    apply in_app_or in Hc as [Hc|Hc]; [auto|].
    apply in_app_or in Hc as [Hc|Hc]; [|auto].
    simpl in Hc. destruct Hc as [<-|[]]. auto.
Qed.

(** *** [join] after [split] collapses and trims *)

Lemma lstrip_idem s : lstrip (lstrip s) = lstrip s.
Proof.
  induction s as [|c s IH]; [reflexivity|]. simpl.
  destruct (isspace c) eqn:E; [assumption|]. simpl. rewrite E. reflexivity.
Qed.

Lemma collapse_ws_space c s :
  isspace c = true -> collapse_ws (c :: s) = 32 :: lstrip (collapse_ws s).
Proof.
  revert c. induction s as [|c' s IH]; intros c Hc.
  - simpl. rewrite Hc. reflexivity.
  - change (collapse_ws (c :: c' :: s))
      with (if isspace c then
              if isspace c' then collapse_ws (c' :: s) else 32 :: collapse_ws (c' :: s)
            else c :: collapse_ws (c' :: s)).
    rewrite Hc. destruct (isspace c') eqn:Hc'.
    + rewrite (IH c' Hc'). simpl. rewrite lstrip_idem. reflexivity.
    + simpl. rewrite Hc'. simpl. rewrite Hc'. reflexivity.
Qed.

Lemma collapse_ws_nonspace c s :
  isspace c = false -> collapse_ws (c :: s) = c :: collapse_ws s.
Proof. intros H. simpl. rewrite H. reflexivity. Qed.

Lemma collapse_ws_app cur s :
  forallb nonspace cur = true -> collapse_ws (cur ++ s) = cur ++ collapse_ws s.
Proof.
  induction cur as [|c cur IH]; intros H; [reflexivity|].
  simpl in H. apply andb_true_iff in H as [Hc H]. apply negb_true_iff in Hc.
  rewrite <- app_comm_cons, collapse_ws_nonspace, IH by assumption. reflexivity.
Qed.

Lemma rstrip_nonspace c s : isspace c = false -> rstrip (c :: s) = c :: rstrip s.
Proof. intros H. simpl. rewrite H. destruct (rstrip s); reflexivity. Qed.

Lemma rstrip_app cur s :
  forallb nonspace cur = true -> rstrip (cur ++ s) = cur ++ rstrip s.
Proof.
  induction cur as [|c cur IH]; intros H; [reflexivity|].
  simpl in H. apply andb_true_iff in H as [Hc H]. apply negb_true_iff in Hc.
  rewrite <- app_comm_cons, rstrip_nonspace, IH by assumption. reflexivity.
Qed.

Lemma rstrip_space s : rstrip (32 :: s) = match rstrip s with [] => [] | r => 32 :: r end.
Proof. reflexivity. Qed.

Lemma join_cons sep (w : pystr) ws :
  join sep (w :: ws) = w ++ match ws with [] => [] | _ => sep ++ join sep ws end.
Proof. destruct ws; [simpl; rewrite app_nil_r|]; reflexivity. Qed.

Lemma join_nil_inv ws :
  Forall (fun w : pystr => w <> []) ws -> join space ws = [] -> ws = [].
Proof.
  destruct ws as [|w ws]; [reflexivity|]. intros H E.
  rewrite join_cons in E. apply app_eq_nil in E as [E _].
  inversion H; subst. contradiction.
Qed.

Lemma split_from_nonempty s : forall cur,
  Forall (fun w : pystr => w <> []) (split_from cur s).
Proof.
  intros cur.
  assert (Forall (fun w => w <> [] /\ forallb (fun _ => true) w = true)
            (split_from cur s)) as H.
  { apply split_from_words; [apply forallb_forall|]; auto. }
  rewrite Forall_forall in *. intros w Hw. apply (H w Hw).
Qed.

Lemma join_split_from s :
  (forall cur, cur <> [] -> forallb nonspace cur = true ->
     join space (split_from cur s) = rstrip (collapse_ws (cur ++ s)))
  /\ join space (split_from [] s) = strip (collapse_ws s).
Proof.
  unfold strip. induction s as [|c s [IHG IHE]].
  - split; [|reflexivity]. intros cur Hne Hcur. rewrite app_nil_r. simpl.
    destruct cur; [contradiction|]. simpl join.
    rewrite <- (app_nil_r (c :: cur)) at 2.
    rewrite collapse_ws_app, rstrip_app by assumption.
    rewrite app_nil_r. reflexivity.
  - assert (isspace c = true ->
            forall cur, forallb nonspace cur = true ->
              cur ++ match split_from [] s with [] => [] | _ => space ++ join space (split_from [] s) end
              = rstrip (collapse_ws (cur ++ c :: s))) as Hsp.
    { intros Hc cur Hcur.
      rewrite collapse_ws_app, rstrip_app by assumption. f_equal.
      rewrite collapse_ws_space, rstrip_space by assumption.
      rewrite <- IHE.
      destruct (split_from [] s) eqn:E; [reflexivity|].
      destruct (join space (p :: l)) eqn:Ej; [|reflexivity].
      apply join_nil_inv in Ej; [discriminate|].
      rewrite <- E. apply split_from_nonempty. }
    split.
    + intros cur Hne Hcur. simpl split_from. destruct (isspace c) eqn:Hc.
      * destruct cur as [|c0 cur]; [contradiction|].
        rewrite join_cons. apply Hsp; auto.
      * rewrite IHG.
        -- rewrite <- app_assoc. reflexivity.
        -- intros E. apply app_eq_nil in E as [_ ?]. discriminate.
        -- rewrite forallb_app, Hcur. simpl. unfold nonspace. rewrite Hc. reflexivity.
    + simpl split_from. destruct (isspace c) eqn:Hc.
      * rewrite IHE, collapse_ws_space by assumption. simpl. rewrite lstrip_idem. reflexivity.
      * rewrite (IHG [c]); [|discriminate|simpl; unfold nonspace; rewrite Hc; reflexivity].
        simpl app. rewrite collapse_ws_nonspace by assumption.
        simpl lstrip. rewrite Hc. reflexivity.
Qed.

Lemma join_split s : join space (split s) = strip (collapse_ws s).
Proof. apply join_split_from. Qed.

Lemma split_from_map_ext (f g : codepoint -> codepoint) s :
  (forall c, isspace (f c) = isspace (g c)) ->
  (forall c, isspace (f c) = false -> f c = g c) ->
  forall cur, split_from cur (map f s) = split_from cur (map g s).
Proof.
  intros Hsp Heq. induction s as [|c s IH]; intros cur; [reflexivity|].
  simpl. rewrite <- Hsp. destruct (isspace (f c)) eqn:E.
  - rewrite !IH. reflexivity.
  - rewrite <- (Heq c E). apply IH.
Qed.

Lemma keep_or_space_only c :
  isspace (keep_or_space c) = isspace (only_alnum_space c)
  /\ (isspace (keep_or_space c) = false -> keep_or_space c = only_alnum_space c).
Proof.
  unfold keep_or_space, only_alnum_space.
  destruct (is_lower_az c || is_digit09 c) eqn:E; simpl; [auto|].
  destruct (Z.eqb_spec c 32) as [->|Hne]; [auto|].
  destruct (isspace c) eqn:Es; [|auto].
  split; [rewrite Es; reflexivity|congruence].
Qed.

Lemma split_class_eq s :
  split (map keep_or_space s) = split (map only_alnum_space s).
Proof.
  apply split_from_map_ext; intros c; apply keep_or_space_only.
Qed.

(** *** What the URL pattern matches *)

Lemma run_length_split p s :
  exists u rest, s = u ++ rest /\ length u = run_length p s
    /\ forallb p u = true /\ ends_run p rest.
Proof.
  induction s as [|c s (u & rest & -> & Hl & Hu & Hr)].
  - exists [], []. simpl. auto.
  - simpl. destruct (p c) eqn:E.
    + exists (c :: u), rest. simpl. rewrite E, Hu, Hl. auto.
    + exists [], (c :: u ++ rest). simpl. auto.
Qed.

Lemma run_length_app p u rest :
  forallb p u = true -> ends_run p rest -> run_length p (u ++ rest) = length u.
Proof.
  intros Hu Hr. induction u as [|c u IH]; simpl.
  - destruct rest as [|c rest]; [reflexivity|]. simpl in *. rewrite Hr. reflexivity.
  - simpl in Hu. apply andb_true_iff in Hu as [-> Hu]. rewrite IH by assumption. reflexivity.
Qed.

Lemma match_lit_prefix lit r : match_lit lit (lit ++ r) = Some r.
Proof.
  induction lit as [|a lit IH]; [reflexivity|]. simpl. rewrite Z.eqb_refl. exact IH.
Qed.

Lemma match_url_tail_spec s k :
  match_url_tail s = Some k <->
  exists u rest, s = str "://" ++ u ++ rest /\ u <> [] /\ forallb nonspace u = true
    /\ ends_run nonspace rest /\ k = (3 + length u)%nat.
Proof.
  unfold match_url_tail. split.
  - destruct (match_lit (str "://") s) as [v|] eqn:E; [|discriminate].
    apply match_lit_app in E. subst s.
    destruct (run_length_split nonspace v) as (u & rest & -> & Hl & Hu & Hr).
    fold nonspace. rewrite <- Hl.
    destruct u as [|c u]; [discriminate|]. simpl length. intros [= <-].
    exists (c :: u), rest. repeat split; auto; try discriminate.
  - intros (u & rest & -> & Hne & Hu & Hr & ->).
    rewrite match_lit_prefix. fold nonspace. rewrite run_length_app by assumption.
    destruct u; [contradiction|reflexivity].
Qed.

Lemma match_http_url_spec s k : match_http_url s = Some k <-> http_url_prefix s k.
Proof.
  unfold match_http_url, http_url_prefix. split.
  - destruct (match_lit (str "http") s) as [r|] eqn:E; [|discriminate].
    apply match_lit_app in E. subst s.
    assert (((fun k => 4 + k)%nat <$> match_url_tail r) = Some k ->
      exists scheme u rest, (scheme = str "http" \/ scheme = str "https")
        /\ str "http" ++ r = scheme ++ str "://" ++ u ++ rest
        /\ u <> [] /\ forallb nonspace u = true /\ ends_run nonspace rest
        /\ k = length (scheme ++ str "://" ++ u)) as Hplain.
    { destruct (match_url_tail r) as [k'|] eqn:Hk'; [|discriminate]. intros [= <-].
      apply match_url_tail_spec in Hk' as (u & rest & -> & ? & ? & ? & ->).
      exists (str "http"), u, rest. repeat split; auto. }
    destruct r as [|c r']; [exact Hplain|].
    destruct (Z.eqb_spec c 115) as [->|Hc]; [|exact Hplain].
    destruct (match_url_tail r') as [k'|] eqn:E; [|exact Hplain].
    intros [= <-].
    apply match_url_tail_spec in E as (u & rest & -> & ? & ? & ? & ->).
    exists (str "https"), u, rest. repeat split; auto.
  - intros (scheme & u & rest & [-> | ->] & -> & Hne & Hu & Hr & ->).
    + rewrite match_lit_prefix.
      assert (match_url_tail (str "://" ++ u ++ rest) = Some (3 + length u)%nat) as Ht.
      { apply match_url_tail_spec. exists u, rest. auto. }
      change (str "://" ++ u ++ rest) with (58 :: (47 :: 47 :: u ++ rest)) in *.
      cbv iota. change (58 =? 115) with false. cbv iota. rewrite Ht. reflexivity.
    + change (str "https" ++ str "://" ++ u ++ rest)
        with (str "http" ++ 115 :: str "://" ++ u ++ rest).
      rewrite match_lit_prefix.
      assert (match_url_tail (str "://" ++ u ++ rest) = Some (3 + length u)%nat) as Ht.
      { apply match_url_tail_spec. exists u, rest. auto. }
      cbv iota. rewrite Z.eqb_refl, Ht. reflexivity.
Qed.

(** *** [normalize_text] *)

Section NormalizerFacts.

Context {rt : Runtime}.

Lemma normalize_text_words text :
  exists ws, Forall normal_word ws /\ normalize_text text = join space ws.
Proof.
  unfold normalize_text.
  destruct (truthy text); simpl; [|exists []; split; [constructor|reflexivity]].
  destruct text as [|t]; [exists []; split; [constructor|reflexivity]|].
  eexists. split; [|reflexivity].
  rewrite re_sub_class. apply split_from_words; [reflexivity|].
  intros c Hc Hs. apply in_map_iff in Hc as [c0 [<- _]].
  apply keep_or_space_class. assumption.
Qed.

Lemma normalize_text_fixes ws :
  lower_on_ascii lower -> Forall normal_word ws ->
  normalize_text (PStr (join space ws)) = join space ws.
Proof.
  intros Hlow Hws. unfold normalize_text.
  destruct (truthy (PStr (join space ws))) eqn:Et; simpl.
  2:{ destruct (join space ws); [reflexivity|discriminate]. }
  pose proof (join_normal_chars ws Hws) as Hch.
  rewrite Hlow.
  2:{ apply forallb_forall. intros c Hc.
      destruct (Hch c Hc) as [H| ->]; [apply is_alnum_ascii; assumption|reflexivity]. }
  assert (map ascii_lower (join space ws) = join space ws) as ->.
  { rewrite <- (map_id (join space ws)) at 2. apply map_ext_in.
    intros c Hc. destruct (Hch c Hc) as [H| ->]; [apply is_alnum_lower; assumption|reflexivity]. }
  rewrite re_sub_http_id.
  2:{ apply Forall_forall. intros c Hc%list_elem_of_In.
      destruct (Hch c Hc) as [H| ->]; [|discriminate].
      intros ->. vm_compute in H. discriminate. }
  rewrite re_sub_class.
  assert (map keep_or_space (join space ws) = join space ws) as ->.
  { rewrite <- (map_id (join space ws)) at 2. apply map_ext_in.
    intros c Hc. destruct (Hch c Hc) as [H| ->]; [apply is_alnum_keep; assumption|reflexivity]. }
  rewrite split_join by assumption. reflexivity.
Qed.

(** C4.  [normalize_text] is idempotent: normalizing a normalized title
    gives it back, when [str.lower] lowers ASCII text letter by
    letter. *)
Theorem normalize_text_idempotent :
  lower_on_ascii lower ->
  forall text,
    normalize_text (PStr (normalize_text text))
    = normalize_text text.
Proof.
  intros Hlow text.
  destruct (normalize_text_words text) as [ws [Hws ->]].
  apply normalize_text_fixes; assumption.
Qed.

Lemma normalize_text_pipeline :
  lower_on_ascii lower ->
  forall text, normalize_text text = pipeline match_http_url lower text.
Proof.
  intros Hlow text. unfold normalize_text, pipeline.
  assert (lower [] = []) as Hnil by (apply (Hlow []); reflexivity).
  destruct text as [|[|c t]]; simpl truthy; cbv iota; simpl negb; cbv iota;
    try (rewrite Hnil; reflexivity).
  rewrite re_sub_class. rewrite <- join_split.
  unfold split at 1. rewrite split_class_eq. reflexivity.
Qed.


(** C5 (amended).  When [str.lower] lowers ASCII text letter by letter,
    [normalize_text] is the composition, in this order, of: lowercasing;
    removal of every match of the pattern of the source, a match being
    [http://] or [https://] and the longest non-empty run of characters
    that are not whitespace, wherever it starts in the text; replacement
    of every character other than [a-z], [0-9] and the space by a space;
    collapsing of whitespace runs to one space and trimming of both
    ends.  The title "Hello, World!  123" normalizes to
    "hello world 123", and "ftp://x", which the pattern does not match,
    to "ftp x". *)
Theorem normalize_text_steps :
  lower_on_ascii lower ->
  (forall text,
     normalize_text text
     = strip (collapse_ws (map only_alnum_space
                (re_sub match_http_url []
                   (lower match text with PNone => [] | PStr t => t end)))))
  /\ (forall s k, match_http_url s = Some k <-> http_url_prefix s k)
  /\ normalize_text (PStr (str "Hello, World!  123")) = str "hello world 123"
  /\ normalize_text (PStr (str "ftp://x")) = str "ftp x".
Proof.
  intros Hlow. split; [|split; [|split]].
  - intros text. rewrite normalize_text_pipeline by assumption. reflexivity.
  - apply match_http_url_spec.
  - unfold normalize_text. simpl truthy. cbv iota. simpl negb. cbv iota.
    rewrite Hlow by reflexivity. vm_compute. reflexivity.
  - unfold normalize_text. simpl truthy. cbv iota. simpl negb. cbv iota.
    rewrite Hlow by reflexivity. vm_compute. reflexivity.
Qed.

End NormalizerFacts.

(** ** The fingerprint generator *)

Lemma fold_union_elem (f : nat -> pystr) l : forall (acc : gset pystr) g,
  g ∈ fold_left (fun ngrams i => ngrams ∪ {[ f i ]}) l acc
  <-> g ∈ acc \/ exists i, In i l /\ g = f i.
Proof.
  induction l as [|i l IH]; intros acc g; simpl.
  - split; [auto|]. intros [H|(i & [] & _)]. exact H.
  - rewrite IH. rewrite elem_of_union, elem_of_singleton. split.
    + intros [[H|H]|(j & Hj & ->)]; eauto.
    + intros [H|(j & [<-|Hj] & ->)]; eauto.
Qed.

Lemma slice_window (s : pystr) i n : slice s i (i + n) = take n (drop i s).
Proof. unfold slice. f_equal. lia. Qed.

Lemma window_substring (s g : pystr) n :
  (exists i, (i + n <= length s)%nat /\ g = take n (drop i s))
  <-> exists pre post, s = pre ++ g ++ post /\ length g = n.
Proof.
  split.
  - intros (i & Hi & ->). exists (take i s), (drop n (drop i s)).
    rewrite take_drop, take_drop. split; [reflexivity|].
    rewrite length_take, length_drop. lia.
  - intros (pre & post & -> & <-). exists (length pre).
    rewrite !length_app. split; [lia|].
    rewrite drop_app_length, take_app_length. reflexivity.
Qed.

Section Ngrams.

Context {rt : Runtime}.

Lemma generate_ngrams_short text n :
  (length (normalize_text text) < n)%nat ->
  generate_ngrams text n = {[ normalize_text text ]}.
Proof.
  intros H. unfold generate_ngrams.
  destruct (Nat.ltb_spec (length (normalize_text text)) n); [reflexivity|lia].
Qed.

Lemma generate_ngrams_windows text n g :
  (n <= length (normalize_text text))%nat ->
  g ∈ generate_ngrams text n
  <-> exists i, (i + n <= length (normalize_text text))%nat
        /\ g = take n (drop i (normalize_text text)).
Proof.
  intros H. unfold generate_ngrams.
  destruct (Nat.ltb_spec (length (normalize_text text)) n); [lia|].
  rewrite fold_union_elem. unfold range. split.
  - intros [H1|(i & Hi & ->)]; [set_solver|].
    apply in_seq in Hi. exists i. rewrite slice_window. split; [lia|reflexivity].
  - intros (i & Hi & ->). right. exists i. rewrite slice_window.
    split; [apply in_seq; lia|reflexivity].
Qed.

(** C3.  For [n >= 1], [generate_ngrams text n] works on the normalized
    text [t]: when [t] is shorter than [n] the result is the set [{t}],
    which is [{[]}] when [t] is empty; otherwise the result is the set
    of the contiguous substrings of [t] of length [n], each counted
    once. *)
Theorem generate_ngrams_spec text n :
  (1 <= n)%nat ->
  let t := normalize_text text in
  ((length t < n)%nat -> generate_ngrams text n = {[ t ]})
  /\ (t = [] -> generate_ngrams text n = {[ [] ]})
  /\ ((n <= length t)%nat ->
      forall g, g ∈ generate_ngrams text n
                <-> exists pre post, t = pre ++ g ++ post /\ length g = n).
Proof.
  intros Hn t. split; [|split].
  - apply generate_ngrams_short.
  - intros E. rewrite generate_ngrams_short; fold t; rewrite E; [reflexivity|simpl; lia].
  - intros H g. rewrite generate_ngrams_windows by assumption.
    apply window_substring.
Qed.

End Ngrams.



(** ** The pairwise matcher *)

(** *** The index pairs of the nested loops *)

Lemma in_range a b x : In x (range a b) <-> (a <= x < b)%nat.
Proof. unfold range. rewrite in_seq. lia. Qed.

Lemma range_S a b : (a < b)%nat -> range a b = a :: range (S a) b.
Proof.
  intros H. unfold range. replace (b - a)%nat with (S (b - S a)) by lia. reflexivity.
Qed.

Lemma length_range a b : length (range a b) = (b - a)%nat.
Proof. apply length_seq. Qed.

Lemma in_index_pairs m i j : In (i, j) (index_pairs m) <-> (i < j < m)%nat.
Proof.
  unfold index_pairs. rewrite in_flat_map. split.
  - intros (i' & Hi & Hj). apply in_map_iff in Hj as (j' & [= -> ->] & Hj).
    apply in_range in Hj. lia.
  - intros H. exists i. split; [apply in_range; lia|].
    apply in_map_iff. exists j. split; [reflexivity|apply in_range; lia].
Qed.

(** The rows of the triangle from row [a] on. *)
Lemma length_rows m : forall k a, (a + k = m)%nat ->
  2 * Z.of_nat (length (flat_map (fun i => map (fun j => (i, j)) (range (i + 1) m)) (seq a k)))
  = Z.of_nat k * (Z.of_nat k - 1).
Proof.
  induction k as [|k IH]; intros a H; [reflexivity|].
  simpl seq. simpl flat_map. rewrite length_app, length_map, length_range.
  rewrite Nat2Z.inj_add, Z.mul_add_distr_l, (IH (S a)) by lia. lia.
Qed.

Lemma length_index_pairs m :
  Z.of_nat (length (index_pairs m)) = Z.of_nat m * (Z.of_nat m - 1) / 2.
Proof.
  pose proof (length_rows m m 0%nat eq_refl) as H.
  unfold index_pairs, range. rewrite Nat.sub_0_r.
  apply Z.div_unique_exact; [lia|]. unfold range in H. lia.
Qed.

Lemma sorted_row i : forall k a, (i < a)%nat ->
  StronglySorted lex_lt (map (fun j => (i, j)) (seq a k)).
Proof.
  induction k as [|k IH]; intros a H; simpl; constructor.
  - apply IH. lia.
  - apply Forall_forall. intros [i' j'] Hin%list_elem_of_In.
    apply in_map_iff in Hin as (j & [= <- <-] & Hj). apply in_seq in Hj.
    right. simpl. lia.
Qed.

Lemma StronglySorted_app {A} (R : A -> A -> Prop) l1 l2 :
  StronglySorted R l1 -> StronglySorted R l2 ->
  (forall x y, In x l1 -> In y l2 -> R x y) ->
  StronglySorted R (l1 ++ l2).
Proof.
  intros H1 H2 H. induction l1 as [|x l1 IH]; [exact H2|].
  inversion H1 as [|? ? Hs Hf]; subst. simpl. constructor.
  - apply IH; [assumption|]. intros; apply H; simpl; auto.
  - apply Forall_forall. intros y Hy%list_elem_of_In.
    apply in_app_or in Hy as [Hy|Hy].
    + rewrite Forall_forall in Hf. apply Hf, list_elem_of_In, Hy.
    + apply H; simpl; auto.
Qed.

Lemma sorted_rows m : forall k a,
  StronglySorted lex_lt
    (flat_map (fun i => map (fun j => (i, j)) (range (i + 1) m)) (seq a k)).
Proof.
  induction k as [|k IH]; intros a; [constructor|].
  simpl. apply StronglySorted_app.
  - apply sorted_row. lia.
  - apply IH.
  - intros [i j] [i' j'] Hx Hy.
    apply in_map_iff in Hx as (? & [= <- <-] & _).
    apply in_flat_map in Hy as (i0 & Hi0 & Hy).
    apply in_map_iff in Hy as (? & [= <- <-] & _).
    apply in_seq in Hi0. left. simpl. lia.
Qed.

Lemma sorted_index_pairs m : StronglySorted lex_lt (index_pairs m).
Proof. apply sorted_rows. Qed.

(** *** The loops *)

Lemma for_each_cons {A S : Type} (x : A) l (body : A -> S -> result S) s :
  for_each (x :: l) body s = body x s ≫= for_each l body.
Proof. reflexivity. Qed.

Lemma bind_Ok {A B : Type} (a : A) (k : A -> result B) : Ok a ≫= k = k a.
Proof. reflexivity. Qed.

Section Pairwise.
Context {rt : Runtime}.

Lemma calculate_jaccard_similarity_ok set1 set2 :
  calculate_jaccard_similarity set1 set2 = Ok (jaccard set1 set2).
Proof.
  unfold calculate_jaccard_similarity, jaccard.
  destruct (bool_decide (set1 = ∅)) eqn:E1; [reflexivity|].
  destruct (bool_decide (set2 = ∅)) eqn:E2; [reflexivity|]. simpl.
  apply bool_decide_eq_false in E1.
  destruct (Z.eqb_spec (Z.of_nat (size (set1 ∪ set2))) 0) as [H|H].
  - exfalso. apply E1. assert (size (set1 ∪ set2) = 0%nat) as H0 by lia.
    apply size_empty_inv in H0. set_solver.
  - unfold py_truediv. destruct (Z.eqb_spec (Z.of_nat (size (set1 ∪ set2))) 0); [contradiction|reflexivity].
Qed.

Lemma article_ngrams_map n (arts : list article) : forall acc,
  fold_left
    (fun acc a =>
       let title := dict_get a "title" (PStr []) in
       let ngrams := generate_ngrams title n in
       acc ++ [(a, ngrams)]) arts acc
  = acc ++ map (fun a => (a, title_ngrams n a)) arts.
Proof.
  induction arts as [|a arts IH]; intros acc; simpl.
  - rewrite app_nil_r. reflexivity.
  - rewrite IH, <- app_assoc. reflexivity.
Qed.

Lemma compare_pair_ok thr n (arts : list article) total i j sp c w :
  (i < length arts)%nat -> (j < length arts)%nat ->
  compare_pair thr (map (fun a => (a, title_ngrams n a)) arts) total i j (sp, c, w)
  = Ok (sp ++ map (emitted n arts) (filter (retained thr n arts) [(i, j)]),
        c + 1, progress (c + 1) total w).
Proof.
  intros Hi Hj. unfold compare_pair, index.
  rewrite !list_lookup_fmap.
  destruct (lookup_lt_is_Some_2 arts i Hi) as [a1 H1].
  destruct (lookup_lt_is_Some_2 arts j Hj) as [a2 H2].
  rewrite H1, H2. simpl.
  rewrite calculate_jaccard_similarity_ok. simpl.
  assert (retained thr n arts (i, j)
          = float_ge (Fin (jaccard (title_ngrams n a1) (title_ngrams n a2))) thr) as Hr.
  { unfold retained, pair_similarity. simpl.
    rewrite (list_lookup_total_correct _ _ _ H1), (list_lookup_total_correct _ _ _ H2).
    reflexivity. }
  assert (emitted n arts (i, j)
          = {| article1 := make_ref a1; article2 := make_ref a2;
               similarity := round4 (jaccard (title_ngrams n a1) (title_ngrams n a2)) |}) as He.
  { unfold emitted, pair_similarity. simpl.
    rewrite (list_lookup_total_correct _ _ _ H1), (list_lookup_total_correct _ _ _ H2).
    reflexivity. }
  rewrite <- Hr, <- He. unfold progress.
  destruct (retained thr n arts (i, j)) eqn:E.
  - rewrite filter_cons_True by (rewrite E; exact I). reflexivity.
  - rewrite filter_cons_False by (rewrite E; intros []). simpl.
    rewrite app_nil_r. reflexivity.
Qed.

Lemma only_progress_refl w : only_progress w w.
Proof. split; [reflexivity|]. exists []. rewrite app_nil_r. auto. Qed.

Lemma only_progress_trans w1 w2 w3 :
  only_progress w1 w2 -> only_progress w2 w3 -> only_progress w1 w3.
Proof.
  intros [Hw1 (e1 & He1 & Hp1)] [Hw2 (e2 & He2 & Hp2)]. split; [congruence|].
  exists (e1 ++ e2). rewrite He2, He1, <- app_assoc. split; [reflexivity|].
  apply Forall_app; auto.
Qed.

Lemma only_progress_step c total w : only_progress w (progress c total w).
Proof.
  unfold progress. destruct (c mod 100000 =? 0); [|apply only_progress_refl].
  split; [reflexivity|]. exists [MsgProgress c total]. split; [reflexivity|].
  constructor; [|constructor]. eauto.
Qed.

Lemma inner_loop_ok thr n (arts : list article) total i :
  (i < length arts)%nat ->
  forall js sp c w,
    (forall j, In j js -> (j < length arts)%nat) ->
    exists w',
      for_each js
        (compare_pair thr (map (fun a => (a, title_ngrams n a)) arts) total i)
        (sp, c, w)
      = Ok (sp ++ map (emitted n arts)
                    (filter (retained thr n arts) (map (fun j => (i, j)) js)),
            c + len js, w')
      /\ only_progress w w'.
Proof.
  intros Hi. induction js as [|j js IH]; intros sp c w Hjs.
  - exists w. simpl. rewrite app_nil_r. unfold len. simpl. rewrite Z.add_0_r.
    split; [reflexivity|apply only_progress_refl].
  - rewrite for_each_cons, compare_pair_ok by (auto; apply Hjs; simpl; auto).
    rewrite bind_Ok.
    destruct (IH (sp ++ map (emitted n arts) (filter (retained thr n arts) [(i, j)]))
                (c + 1) (progress (c + 1) total w)) as (w' & -> & Hw').
    { intros; apply Hjs; simpl; auto. }
    exists w'. split.
    + rewrite <- app_assoc, <- map_app, <- filter_app.
      replace (c + 1 + len js) with (c + len (j :: js))
        by (unfold len; simpl length; lia).
      reflexivity.
    + eapply only_progress_trans; [apply only_progress_step|exact Hw'].
Qed.

Lemma outer_loop_ok thr n (arts : list article) total :
  forall rows sp c w,
    (forall i, In i rows -> (i < length arts)%nat) ->
    exists w',
      for_each rows
        (fun i =>
           for_each (range (i + 1) (length arts))
             (compare_pair thr (map (fun a => (a, title_ngrams n a)) arts) total i))
        (sp, c, w)
      = Ok (sp ++ map (emitted n arts)
                    (filter (retained thr n arts)
                       (flat_map (fun i => map (fun j => (i, j))
                                             (range (i + 1) (length arts))) rows)),
            c + len (flat_map (fun i => map (fun j => (i, j))
                                          (range (i + 1) (length arts))) rows),
            w')
      /\ only_progress w w'.
Proof.
  induction rows as [|i rows IH]; intros sp c w Hrows.
  - exists w. simpl. rewrite app_nil_r. unfold len. simpl. rewrite Z.add_0_r.
    split; [reflexivity|apply only_progress_refl].
  - rewrite for_each_cons.
    destruct (inner_loop_ok thr n arts total i (Hrows i (or_introl eq_refl))
                (range (i + 1) (length arts)) sp c w) as (w1 & -> & Hw1).
    { intros j Hj. apply in_range in Hj. lia. }
    rewrite bind_Ok.
    destruct (IH (sp ++ map (emitted n arts)
                    (filter (retained thr n arts)
                       (map (fun j => (i, j)) (range (i + 1) (length arts)))))
                (c + len (range (i + 1) (length arts))) w1) as (w' & -> & Hw').
    { intros; apply Hrows; simpl; auto. }
    exists w'. split.
    + rewrite <- app_assoc, <- map_app, <- filter_app.
      match goal with
      | |- Ok (_, ?x, _) = Ok (_, ?y, _) => replace x with y; [reflexivity|]
      end.
      unfold len. simpl flat_map. rewrite length_app, length_map. lia.
    + eapply only_progress_trans; eassumption.
Qed.

Lemma compare_all_ok thr n (arts : list article) total w :
  exists w',
    compare_all thr (map (fun a => (a, title_ngrams n a)) arts) total w
    = Ok (similar_pairs_spec thr n arts, len (index_pairs (length arts)), w')
    /\ only_progress w w'.
Proof.
  unfold compare_all. rewrite length_map.
  destruct (outer_loop_ok thr n arts total (range 0 (length arts)) [] 0 w)
    as (w' & H & Hw').
  { intros i Hi. apply in_range in Hi. lia. }
  exists w'. split; [|exact Hw']. exact H.
Qed.

Lemma find_similar_pairs_ok n self w :
  exists w',
    find_similar_pairs n self w
    = Ok (similar_pairs_spec (similarity_threshold self) n (articles self),
          set_duplicates self
            (similar_pairs_spec (similarity_threshold self) n (articles self)),
          w')
    /\ written w' = written w
    /\ exists extra,
         stdout w'
         = stdout w
           ++ [MsgAnalyzing n; MsgThreshold (similarity_threshold self);
               MsgPerforming (len (articles self) * (len (articles self) - 1) / 2)]
           ++ extra
           ++ [MsgFoundPairs
                 (len (similar_pairs_spec (similarity_threshold self) n (articles self)))
                 (similarity_threshold self)]
         /\ Forall (fun m => exists c t, m = MsgProgress c t) extra.
Proof.
  unfold find_similar_pairs.
  rewrite article_ngrams_map. simpl app.
  match goal with
  | |- context [compare_all ?thr ?an ?tot ?w0] =>
      destruct (compare_all_ok thr n (articles self) tot w0) as (w1 & -> & Hw & (extra & He & Hp))
  end.
  simpl. eexists. split; [reflexivity|]. simpl. split; [exact Hw|].
  exists extra. split; [|exact Hp].
  rewrite He. simpl. unfold len. rewrite length_map.
  rewrite <- !app_assoc. reflexivity.
Qed.

End Pairwise.



(** *** The pairs returned *)

Lemma lex_lt_irrefl p : ~ lex_lt p p.
Proof. unfold lex_lt. lia. Qed.

Lemma StronglySorted_NoDup {A} (R : A -> A -> Prop) l :
  (forall x, ~ R x x) -> StronglySorted R l -> NoDup l.
Proof.
  intros Hirr. induction 1 as [|x l Hs IH Hf]; constructor; [|exact IH].
  intros Hin. rewrite Forall_forall in Hf. exact (Hirr x (Hf x Hin)).
Qed.

Lemma filter_all {A} (f : A -> bool) (l : list A) :
  (forall x, In x l -> f x = true) -> filter f l = l.
Proof.
  induction l as [|x l IH]; intros H; [reflexivity|].
  rewrite filter_cons_True by (rewrite (H x); simpl; auto).
  rewrite IH; [reflexivity|]. intros; apply H; simpl; auto.
Qed.

Lemma filter_none {A} (f : A -> bool) (l : list A) :
  (forall x, In x l -> f x = false) -> filter f l = [].
Proof.
  induction l as [|x l IH]; intros H; [reflexivity|].
  rewrite filter_cons_False by (rewrite (H x); simpl; auto).
  apply IH. intros; apply H; simpl; auto.
Qed.

Section PairwiseTheorems.
Context {rt : Runtime}.

Lemma jaccard_in_unit set1 set2 :
  truediv_in_unit truediv -> (0 <= jaccard set1 set2 <= 1)%Q.
Proof.
  intros Hdiv. unfold jaccard.
  destruct (bool_decide (set1 = ∅) || bool_decide (set2 = ∅)) eqn:E.
  - split; discriminate.
  - apply orb_false_iff in E as [E1%bool_decide_eq_false _].
    assert (size (set1 ∩ set2) <= size (set1 ∪ set2))%nat as Hle
      by (apply subseteq_size; intros x [Hx _]%elem_of_intersection;
          apply elem_of_union; auto).
    assert (size (set1 ∪ set2) <> 0)%nat as Hne.
    { intros H0. apply size_empty_inv in H0. apply E1. set_solver. }
    apply Hdiv; lia.
Qed.

(** C2.  [find_similar_pairs] compares the index pairs [(i, j)] with
    [i < j < m], each once and in ascending lexicographic order: the
    counter [compared] ends at [m (m - 1) / 2], the value computed for a
    pair is [pair_similarity], and the list returned holds the records of
    exactly the pairs whose similarity is [>=] the threshold, in that
    order.  No pair is listed in both orientations. *)
Theorem find_similar_pairs_enumeration n self w :
  let arts := articles self in
  let thr := similarity_threshold self in
  let m := length arts in
  (exists w',
     find_similar_pairs n self w
     = Ok (map (emitted n arts) (filter (retained thr n arts) (index_pairs m)),
           set_duplicates self
             (map (emitted n arts) (filter (retained thr n arts) (index_pairs m))),
           w'))
  /\ (exists w',
        compare_all thr (map (fun a => (a, title_ngrams n a)) arts)
          (len arts * (len arts - 1) / 2) w
        = Ok (map (emitted n arts) (filter (retained thr n arts) (index_pairs m)),
              len arts * (len arts - 1) / 2, w'))
  /\ (forall p,
        calculate_jaccard_similarity
          (title_ngrams n (arts !!! fst p)) (title_ngrams n (arts !!! snd p))
        = Ok (pair_similarity n arts p)
        /\ (retained thr n arts p = true
            <-> float_ge (Fin (pair_similarity n arts p)) thr = true))
  /\ (forall i j, In (i, j) (index_pairs m) <-> (i < j < m)%nat)
  /\ StronglySorted lex_lt (index_pairs m)
  /\ NoDup (index_pairs m)
  /\ len (index_pairs m) = len arts * (len arts - 1) / 2
  /\ (forall i j, In (i, j) (index_pairs m) -> ~ In (j, i) (index_pairs m)).
Proof.
  intros arts thr m.
  split; [|split; [|split; [|split; [|split; [|split; [|split]]]]]].
  - destruct (find_similar_pairs_ok n self w) as (w' & H & _). exists w'. exact H.
  - destruct (compare_all_ok thr n arts (len arts * (len arts - 1) / 2) w)
      as (w' & H & _).
    exists w'. rewrite H. unfold similar_pairs_spec.
    unfold len at 1. rewrite length_index_pairs. reflexivity.
  - intros p. split; [apply calculate_jaccard_similarity_ok|reflexivity].
  - intros i j. apply in_index_pairs.
  - apply sorted_index_pairs.
  - eapply StronglySorted_NoDup; [apply lex_lt_irrefl|apply sorted_index_pairs].
  - apply length_index_pairs.
  - intros i j H1 H2. apply in_index_pairs in H1, H2. lia.
Qed.

(** C10.  [find_similar_pairs] returns normally for every threshold,
    NaN and the infinities included.  When the threshold is [<= 0] the
    list returned has a record for each of the [m (m - 1) / 2] index
    pairs; when it is [> 1] the list is empty.  The quotient of two
    integers [0 <= a <= b] is assumed to lie in [[0, 1]]. *)
Theorem find_similar_pairs_threshold_extremes n self w :
  truediv_in_unit truediv ->
  let arts := articles self in
  let thr := similarity_threshold self in
  (exists ps w', find_similar_pairs n self w = Ok (ps, set_duplicates self ps, w'))
  /\ (float_le thr (Fin 0) = true ->
      exists w',
        find_similar_pairs n self w
        = Ok (map (emitted n arts) (index_pairs (length arts)),
              set_duplicates self (map (emitted n arts) (index_pairs (length arts))),
              w')
        /\ len (map (emitted n arts) (index_pairs (length arts)))
           = len arts * (len arts - 1) / 2)
  /\ (float_gt thr (Fin 1) = true ->
      exists w', find_similar_pairs n self w = Ok ([], set_duplicates self [], w')).
Proof.
  intros Hdiv arts thr.
  destruct (find_similar_pairs_ok n self w) as (w' & H & _).
  unfold similar_pairs_spec in H. fold arts thr in H.
  split; [eauto|]. split.
  - intros Hthr. exists w'. rewrite H, filter_all.
    + split; [reflexivity|]. unfold len. rewrite length_map. apply length_index_pairs.
    + intros p _. unfold retained.
      pose proof (jaccard_in_unit (title_ngrams n (arts !!! fst p))
                    (title_ngrams n (arts !!! snd p)) Hdiv) as [H0 _].
      fold (pair_similarity n arts p) in H0.
      unfold float_le in Hthr. unfold float_ge in *.
      destruct thr as [t| | |]; try discriminate; [|reflexivity].
      apply Qle_bool_iff. apply Qle_bool_iff in Hthr.
      eapply Qle_trans; eassumption.
  - intros Hthr. exists w'. rewrite H, filter_none; [reflexivity|].
    intros p _. unfold retained.
    pose proof (jaccard_in_unit (title_ngrams n (arts !!! fst p))
                  (title_ngrams n (arts !!! snd p)) Hdiv) as [_ H1].
    fold (pair_similarity n arts p) in H1.
    unfold float_gt in Hthr. unfold float_ge.
    destruct thr as [t| | |]; try discriminate; [|reflexivity].
    apply negb_true_iff in Hthr.
    destruct (Qle_bool t (pair_similarity n arts p)) eqn:E; [|reflexivity].
    apply Qle_bool_iff in E.
    assert (Qle_bool t 1 = true) as Ht
      by (apply Qle_bool_iff; eapply Qle_trans; eassumption).
    congruence.
Qed.
End PairwiseTheorems.


(** ** The exact-match clusterer *)

(** *** First occurrences *)

Lemma elem_of_first_seen l k : k ∈ first_seen l <-> k ∈ l.
Proof.
  induction l as [|x l IH]; simpl; [reflexivity|].
  rewrite !elem_of_cons, list_elem_of_filter, IH.
  destruct (decide (k = x)); tauto.
Qed.

Lemma NoDup_first_seen l : NoDup (first_seen l).
Proof.
  induction l as [|x l IH]; simpl; constructor.
  - rewrite list_elem_of_filter. tauto.
  - apply NoDup_filter, IH.
Qed.

Lemma first_seen_snoc l k :
  first_seen (l ++ [k])
  = if decide (k ∈ l) then first_seen l else first_seen l ++ [k].
Proof.
  induction l as [|x l IH].
  - destruct (decide (k ∈ [])) as [H|H]; [inversion H|reflexivity].
  - change (first_seen ((x :: l) ++ [k]))
      with (x :: filter (fun k' => k' <> x) (first_seen (l ++ [k]))).
    rewrite IH. simpl first_seen.
    destruct (decide (k ∈ l)) as [Hin|Hnin];
      destruct (decide (k ∈ x :: l)) as [Hin'|Hnin']; try reflexivity.
    + exfalso. apply Hnin'. apply elem_of_cons. auto.
    + apply elem_of_cons in Hin' as [->|?]; [|contradiction].
      rewrite filter_app, filter_cons_False, filter_nil by auto.
      rewrite app_nil_r. reflexivity.
    + rewrite filter_app, filter_cons_True, filter_nil; [reflexivity|].
      intros ->. apply Hnin'. apply elem_of_cons. auto.
Qed.

(** *** The dictionary *)

Lemma dict_append_fresh k a d :
  k ∉ map fst d -> dict_append k a d = d ++ [(k, [a])].
Proof.
  induction d as [|[k' v] d IH]; intros H; simpl; [reflexivity|].
  simpl in H. rewrite not_elem_of_cons in H. destruct H as [Hne H].
  rewrite decide_False by auto. rewrite IH by assumption. reflexivity.
Qed.

Lemma dict_append_known k a (M : pystr -> list article) ks :
  NoDup ks -> k ∈ ks ->
  dict_append k a (map (fun k' => (k', M k')) ks)
  = map (fun k' => (k', M k' ++ if decide (k' = k) then [a] else [])) ks.
Proof.
  induction ks as [|k' ks IH]; intros Hnd Hin; [inversion Hin|].
  apply NoDup_cons in Hnd as [Hk' Hnd]. simpl.
  destruct (decide (k' = k)) as [->|Hne].
  - f_equal. apply map_ext_in. intros k1 Hk1%list_elem_of_In.
    rewrite decide_False by (intros ->; contradiction).
    rewrite app_nil_r. reflexivity.
  - rewrite app_nil_r. f_equal. apply IH; [assumption|].
    apply elem_of_cons in Hin as [->|]; [contradiction|assumption].
Qed.

(** *** The sort *)

Lemma insert_by_len_desc_perm {A} (c : list A) l :
  Permutation (insert_by_len_desc c l) (c :: l).
Proof.
  induction l as [|x l IH]; simpl; [reflexivity|].
  destruct (length x <=? length c)%nat; [reflexivity|].
  rewrite IH. apply perm_swap.
Qed.

Lemma sort_by_len_desc_perm {A} (l : list (list A)) :
  Permutation (sort_by_len_desc l) l.
Proof.
  induction l as [|c l IH]; simpl; [reflexivity|].
  unfold sort_by_len_desc in *. simpl.
  rewrite insert_by_len_desc_perm, IH. reflexivity.
Qed.

Lemma insert_by_len_desc_sorted {A} (c : list A) l :
  StronglySorted len_ge l -> StronglySorted len_ge (insert_by_len_desc c l).
Proof.
  induction 1 as [|x l Hs IH Hf]; simpl.
  - constructor; constructor.
  - destruct (Nat.leb_spec (length x) (length c)).
    + constructor; [constructor; assumption|].
      constructor; [assumption|].
      eapply Forall_impl; [exact Hf|]. unfold len_ge. intros; simpl in *; lia.
    + constructor; [assumption|].
      rewrite insert_by_len_desc_perm. constructor; [unfold len_ge; lia|assumption].
Qed.

Lemma sort_by_len_desc_sorted {A} (l : list (list A)) :
  StronglySorted len_ge (sort_by_len_desc l).
Proof.
  induction l as [|c l IH]; [constructor|].
  apply insert_by_len_desc_sorted, IH.
Qed.

Lemma insert_by_len_desc_stable {A} (c : list A) l n :
  filter (fun x => length x = n) (insert_by_len_desc c l)
  = filter (fun x => length x = n) (c :: l).
Proof.
  induction l as [|x l IH]; simpl; [reflexivity|].
  destruct (Nat.leb_spec (length x) (length c)); [reflexivity|].
  rewrite (filter_cons _ x), IH, !filter_cons.
  destruct (decide (length x = n)), (decide (length c = n)); try reflexivity. lia.
Qed.

Lemma sort_by_len_desc_stable {A} (l : list (list A)) n :
  filter (fun x => length x = n) (sort_by_len_desc l)
  = filter (fun x => length x = n) l.
Proof.
  induction l as [|c l IH]; [reflexivity|].
  unfold sort_by_len_desc in *. simpl.
  rewrite insert_by_len_desc_stable, !filter_cons, IH. reflexivity.
Qed.

Section Clusters.
Context {rt : Runtime}.

Lemma truthy_PStr s : truthy (PStr s) = true <-> s <> [].
Proof. destruct s; simpl; split; congruence. Qed.

Lemma members_snoc arts a k :
  members (arts ++ [a]) k
  = members arts k ++ if decide (key_of a = k) then [a] else [].
Proof. unfold members. rewrite filter_app, filter_cons, filter_nil. reflexivity. Qed.

Lemma elem_of_cluster_keys arts k :
  k ∈ cluster_keys arts <-> k <> [] /\ exists a, a ∈ arts /\ key_of a = k.
Proof.
  unfold cluster_keys.
  rewrite elem_of_first_seen, list_elem_of_filter, list_elem_of_fmap.
  split.
  - intros [Hne (a & -> & Ha)]. eauto.
  - intros [Hne (a & Ha & <-)]. eauto.
Qed.

Lemma members_nil arts k :
  (forall a, a ∈ arts -> key_of a <> k) -> members arts k = [].
Proof.
  intros H. unfold members. induction arts as [|a arts IH]; [reflexivity|].
  rewrite filter_cons_False by (apply H; left).
  apply IH. intros; apply H; right; assumption.
Qed.

Lemma cluster_keys_snoc arts a :
  cluster_keys (arts ++ [a])
  = if decide (key_of a = []) then cluster_keys arts
    else if decide (key_of a ∈ cluster_keys arts) then cluster_keys arts
    else cluster_keys arts ++ [key_of a].
Proof.
  unfold cluster_keys. rewrite map_app, filter_app. simpl map.
  rewrite filter_cons, filter_nil.
  destruct (decide (key_of a = [])) as [E|E].
  - rewrite decide_False by tauto. rewrite app_nil_r. reflexivity.
  - rewrite decide_True by assumption. rewrite first_seen_snoc.
    repeat case_decide; try reflexivity;
      exfalso; rewrite elem_of_first_seen in *; contradiction.
Qed.

Lemma title_groups_snoc arts a :
  title_groups (arts ++ [a])
  = if truthy (PStr (key_of a))
    then dict_append (key_of a) a (title_groups arts)
    else title_groups arts.
Proof. unfold title_groups. rewrite fold_left_app. reflexivity. Qed.

Lemma title_groups_spec arts :
  title_groups arts = map (fun k => (k, members arts k)) (cluster_keys arts).
Proof.
  induction arts as [|a arts IH] using rev_ind; [reflexivity|].
  rewrite title_groups_snoc, cluster_keys_snoc, IH.
  destruct (decide (key_of a = [])) as [E|E].
  - rewrite E. simpl. apply map_ext_in. intros k Hk%list_elem_of_In.
    rewrite members_snoc, decide_False, app_nil_r; [reflexivity|].
    apply elem_of_cluster_keys in Hk as [Hk _]. congruence.
  - rewrite (proj2 (truthy_PStr _) E).
    destruct (decide (key_of a ∈ cluster_keys arts)) as [Hin|Hnin].
    + rewrite dict_append_known by (auto; apply NoDup_first_seen).
      apply map_ext_in. intros k _. rewrite members_snoc.
      destruct (decide (k = key_of a)), (decide (key_of a = k)); congruence.
    + rewrite dict_append_fresh.
      2:{ rewrite map_map. simpl. rewrite map_id. exact Hnin. }
      rewrite map_app. simpl. f_equal.
      * apply map_ext_in. intros k Hk%list_elem_of_In.
        rewrite members_snoc, decide_False, app_nil_r; [reflexivity|].
        intros <-. contradiction.
      * rewrite members_snoc, decide_True by reflexivity.
        rewrite members_nil; [reflexivity|].
        intros b Hb Hkb. apply Hnin. apply elem_of_cluster_keys. eauto.
Qed.

Lemma cluster_by_exact_match_ok self w :
  exists w',
    cluster_by_exact_match self w
    = (sort_by_len_desc (groups_spec (articles self)),
       set_clusters self (sort_by_len_desc (groups_spec (articles self))),
       w')
    /\ written w' = written w
    /\ exists n total tail,
         stdout w' = stdout w ++ [MsgClustering; MsgFoundClusters n total] ++ tail
         /\ Forall (fun m => exists k, m = MsgLargest k) tail.
Proof.
  unfold cluster_by_exact_match.
  rewrite title_groups_spec.
  assert (snd <$> map (fun k => (k, members (articles self) k)) (cluster_keys (articles self))
          = map (members (articles self)) (cluster_keys (articles self))) as ->.
  { induction (cluster_keys (articles self)) as [|k ks IHks]; [reflexivity|].
    simpl. rewrite <- IHks. reflexivity. }
  fold (groups_spec (articles self)).
  eexists. split; [reflexivity|].
  destruct (sort_by_len_desc (groups_spec (articles self))) as [|c cs]; simpl.
  - split; [reflexivity|]. eexists _, _, []. rewrite <- app_assoc. split; [reflexivity|constructor].
  - split; [reflexivity|]. eexists _, _, [_]. rewrite <- !app_assoc. split; [reflexivity|].
    constructor; [eauto|constructor].
Qed.
End Clusters.


(** *** The clusters returned *)

Lemma filter_two {A} (P : A -> Prop) `{forall x, Decision (P x)} (l : list A) i j a b :
  l !! i = Some a -> l !! j = Some b -> (i < j)%nat -> P a -> P b ->
  (2 <= length (filter P l))%nat.
Proof.
  intros Hi Hj Hlt Ha Hb.
  rewrite <- (take_drop_middle l i a Hi), filter_app, filter_cons_True by assumption.
  assert (b ∈ filter P (drop (S i) l)) as Hin.
  { apply list_elem_of_filter. split; [assumption|].
    apply list_elem_of_lookup. exists (j - S i)%nat.
    rewrite lookup_drop. replace (S i + (j - S i))%nat with j by lia. exact Hj. }
  rewrite length_app. simpl.
  destruct (filter P (drop (S i) l)); [inversion Hin|simpl; lia].
Qed.

Section ClusterTheorems.
Context {rt : Runtime}.

Lemma in_groups_spec arts c :
  c ∈ groups_spec arts
  <-> exists k, k <> [] /\ c = members arts k /\ (2 <= length c)%nat.
Proof.
  unfold groups_spec. rewrite list_elem_of_filter, list_elem_of_fmap. split.
  - intros [Hlen (k & -> & Hk)]. apply elem_of_cluster_keys in Hk as [Hk _]. eauto.
  - intros (k & Hk & -> & Hlen). split; [assumption|]. exists k. split; [reflexivity|].
    apply elem_of_cluster_keys. split; [assumption|].
    destruct (members arts k) as [|a l] eqn:E; [simpl in Hlen; lia|].
    assert (a ∈ members arts k) as Ha by (rewrite E; left).
    apply list_elem_of_filter in Ha as [Ha1 Ha2]. eauto.
Qed.

(** C6.  The clusters returned by [cluster_by_exact_match] are the
    groups [members arts k] of the non-empty keys [k] that have two
    members or more, each once; a group lists its members in corpus
    order; the clusters are in descending order of size, and clusters of
    one size are in the order in which their keys are first met in the
    corpus ([cluster_keys] grows at its end, by a key that is new). *)
Theorem cluster_by_exact_match_order self w :
  let arts := articles self in
  exists cs w',
    cluster_by_exact_match self w = (cs, set_clusters self cs, w')
    /\ Permutation cs
         (filter (fun g => (2 <= length g)%nat)
            (map (members arts) (cluster_keys arts)))
    /\ (forall c, In c cs
                  <-> exists k, k <> [] /\ c = members arts k
                                /\ (2 <= length c)%nat)
    /\ NoDup (cluster_keys arts)
    /\ (forall k, In k (cluster_keys arts)
                  <-> k <> [] /\ exists a, In a arts /\ key_of a = k)
    /\ (forall arts' a,
          cluster_keys (arts' ++ [a])
          = if decide (key_of a = []) then cluster_keys arts'
            else if decide (key_of a ∈ cluster_keys arts') then cluster_keys arts'
            else cluster_keys arts' ++ [key_of a])
    /\ StronglySorted len_ge cs
    /\ (forall n,
          filter (fun c => length c = n) cs
          = filter (fun c => length c = n)
              (filter (fun g => (2 <= length g)%nat)
                 (map (members arts) (cluster_keys arts)))).
Proof.
  intros arts.
  destruct (cluster_by_exact_match_ok self w) as (w' & H & _).
  exists (sort_by_len_desc (groups_spec arts)), w'.
  split; [exact H|]. split; [apply sort_by_len_desc_perm|].
  split; [|split; [apply NoDup_first_seen|split; [|split; [apply cluster_keys_snoc|split]]]].
  - intros c. rewrite <- in_groups_spec, <- !list_elem_of_In.
    rewrite (sort_by_len_desc_perm (groups_spec arts)). reflexivity.
  - intros k. rewrite <- list_elem_of_In, elem_of_cluster_keys.
    split; intros [Hk (a & Ha & <-)]; (split; [assumption|]); exists a;
      (split; [apply list_elem_of_In; assumption|reflexivity]).
  - apply sort_by_len_desc_sorted.
  - intros n. apply sort_by_len_desc_stable.
Qed.

Lemma generate_ngrams_key text1 text2 n :
  normalize_text text1 = normalize_text text2 ->
  generate_ngrams text1 n = generate_ngrams text2 n.
Proof. intros H. unfold generate_ngrams. rewrite H. reflexivity. Qed.

Lemma generate_ngrams_nonempty text n : generate_ngrams text n <> ∅.
Proof.
  destruct (Nat.lt_ge_cases (length (normalize_text text)) n) as [H|H].
  - rewrite generate_ngrams_short by assumption.
    intros E. apply (not_elem_of_empty (C := gset pystr) (normalize_text text)).
    rewrite <- E. apply elem_of_singleton. reflexivity.
  - intros E.
    apply (not_elem_of_empty (C := gset pystr) (take n (drop 0 (normalize_text text)))).
    rewrite <- E. apply generate_ngrams_windows; [assumption|].
    exists 0%nat. split; [lia|reflexivity].
Qed.

Lemma jaccard_same set1 :
  truediv_exact_one truediv -> set1 <> ∅ -> (jaccard set1 set1 == 1)%Q.
Proof.
  intros Hdiv Hne. unfold jaccard.
  rewrite bool_decide_eq_false_2 by assumption. simpl.
  rewrite intersection_idemp_L, union_idemp_L. apply Hdiv.
  assert (size set1 <> 0)%nat by (intros H0; apply size_empty_inv in H0; apply Hne; set_solver).
  lia.
Qed.

(** C1 (amended).  Two articles at positions [i < j] of the corpus whose
    titles have the same normalization get similarity 1 at every n-gram
    size [n >= 1], also when that normalization is the empty string.
    When the normalization is not empty, [cluster_by_exact_match] returns
    a cluster that holds both articles; when it is empty, no cluster
    holds either of them.  [k / k] is assumed to be exactly 1. *)
Theorem identical_titles n self w i j a b :
  truediv_exact_one truediv ->
  (1 <= n)%nat ->
  articles self !! i = Some a -> articles self !! j = Some b -> (i < j)%nat ->
  key_of a = key_of b ->
  (exists q, calculate_jaccard_similarity (title_ngrams n a) (title_ngrams n b) = Ok q
             /\ (q == 1)%Q)
  /\ (pair_similarity n (articles self) (i, j) == 1)%Q
  /\ (key_of a <> [] ->
      exists c, In c (cluster_by_exact_match self w).1.1 /\ In a c /\ In b c)
  /\ (key_of a = [] ->
      forall c, In c (cluster_by_exact_match self w).1.1 -> ~ In a c /\ ~ In b c).
Proof.
  intros Hdiv Hn Hi Hj Hlt Hkey.
  assert (title_ngrams n b = title_ngrams n a) as Hng
    by (symmetry; apply generate_ngrams_key; exact Hkey).
  assert (jaccard (title_ngrams n a) (title_ngrams n b) == 1)%Q as Hone.
  { rewrite Hng. apply jaccard_same; [assumption|apply generate_ngrams_nonempty]. }
  destruct (cluster_by_exact_match_ok self w) as (w' & -> & _). simpl.
  split; [|split; [|split]].
  - eexists. split; [apply calculate_jaccard_similarity_ok|exact Hone].
  - unfold pair_similarity. simpl.
    rewrite (list_lookup_total_correct _ _ _ Hi), (list_lookup_total_correct _ _ _ Hj).
    exact Hone.
  - intros Hne. exists (members (articles self) (key_of a)).
    assert (a ∈ members (articles self) (key_of a)) as Ha.
    { apply list_elem_of_filter. split; [reflexivity|]. eapply list_elem_of_lookup_2; eauto. }
    assert (b ∈ members (articles self) (key_of a)) as Hb.
    { apply list_elem_of_filter. split; [auto|]. eapply list_elem_of_lookup_2; eauto. }
    split; [|split; apply list_elem_of_In; assumption].
    apply list_elem_of_In. rewrite (sort_by_len_desc_perm (groups_spec (articles self))).
    apply in_groups_spec. exists (key_of a). split; [assumption|]. split; [reflexivity|].
    unfold members. eapply (filter_two _ _ i j a b); auto.
  - intros Hempty c Hc%list_elem_of_In.
    rewrite (sort_by_len_desc_perm (groups_spec (articles self))) in Hc.
    apply in_groups_spec in Hc as (k & Hk & -> & _).
    split; intros Hin%list_elem_of_In; apply list_elem_of_filter in Hin as [Hin _]; congruence.
Qed.
End ClusterTheorems.


(** ** The report *)

Lemma sum_len_concat {A} (cs : list (list A)) :
  foldr Z.add 0 (len <$> cs) = len (concat cs).
Proof.
  induction cs as [|c cs IH]; [reflexivity|].
  change (len c + foldr Z.add 0 (len <$> cs) = len (c ++ concat cs)).
  rewrite IH. unfold len. rewrite length_app. lia.
Qed.

Lemma emits_refl w : emits w w [] [].
Proof. split; rewrite app_nil_r; reflexivity. Qed.

Lemma emits_trans w1 w2 w3 o1 o2 f1 f2 :
  emits w1 w2 o1 f1 -> emits w2 w3 o2 f2 -> emits w1 w3 (o1 ++ o2) (f1 ++ f2).
Proof.
  intros [H1 H1'] [H2 H2']. split; rewrite !app_assoc; congruence.
Qed.

Lemma emits_print m w : emits w (print m w) [m] [].
Proof. split; simpl; [reflexivity|rewrite app_nil_r; reflexivity]. Qed.

Lemma emits_write name c w : emits w (write_file name c w) [] [(name, c)].
Proof. split; simpl; [rewrite app_nil_r; reflexivity|reflexivity]. Qed.

Section ReportTheorems.
Context {rt : Runtime}.

Lemma generate_report_ok now self w :
  exists r, generate_report now self w = Ok (r, print MsgGenerating w).
Proof.
  unfold generate_report, py_truediv.
  destruct (Z.ltb_spec 0 (len (articles self))) as [Hpos|Hzero].
  - destruct (Z.eqb_spec (len (articles self)) 0) as [E|_]; [lia|].
    eexists. reflexivity.
  - eexists. reflexivity.
Qed.

(** C7.  [generate_report] never raises, and the report does not depend
    on the world.  Its counts are those of the articles, clusters and
    pairs of the analyzer: [total_articles_in_clusters] is the sum of the
    cluster sizes, [truly_unique_articles] is the total minus that sum
    plus the number of clusters.  For an empty corpus the two rates are
    "0.00%" and "0%"; otherwise they are the quotients by the total,
    times 100, printed with two decimals. *)
Theorem generate_report_formulas now self w :
  exists r,
    generate_report now self w = Ok (r, print MsgGenerating w)
    /\ (forall w0, exists w0', generate_report now self w0 = Ok (r, w0'))
    /\ total_articles_analyzed r = len (articles self)
    /\ num_clusters r = len (clusters self)
    /\ num_pairs r = len (duplicates self)
    /\ threshold r = similarity_threshold self
    /\ total_articles_in_clusters r = len (concat (clusters self))
    /\ truly_unique_articles r
       = total_articles_analyzed r - total_articles_in_clusters r + num_clusters r
    /\ (total_articles_analyzed r = 0 ->
        duplication_rate r = "0.00%"%string /\ uniqueness_rate r = "0%"%string)
    /\ (0 < total_articles_analyzed r ->
        duplication_rate r
        = (format_2f
             (fmul (truediv (total_articles_in_clusters r) (total_articles_analyzed r))
                100) +:+ "%")%string
        /\ uniqueness_rate r
           = (format_2f
                (fmul (truediv (truly_unique_articles r) (total_articles_analyzed r))
                   100) +:+ "%")%string).
Proof.
  unfold generate_report, py_truediv.
  destruct (Z.ltb_spec 0 (len (articles self))) as [Hpos|Hzero].
  - destruct (Z.eqb_spec (len (articles self)) 0) as [E|_]; [lia|].
    eexists. split; [reflexivity|]. simpl.
    split; [intros w0; eexists; reflexivity|].
    rewrite sum_len_concat.
    repeat (split; [reflexivity|]). split; [lia|]. intros _. split; reflexivity.
  - eexists. split; [reflexivity|]. simpl.
    split; [intros w0; eexists; reflexivity|].
    rewrite sum_len_concat.
    repeat (split; [reflexivity|]). split; [|lia]. intros _. split; reflexivity.
Qed.
End ReportTheorems.


(** ** The pipeline *)

Section PipelineTheorems.
Context {rt : Runtime}.

Lemma clusters_data_from_ok cs : forall idx,
  Forall (fun c : list article => c <> []) cs ->
  exists l, clusters_data_from idx cs = Ok l.
Proof.
  induction cs as [|c cs IH]; intros idx H; [simpl; eauto|].
  apply Forall_cons in H as [Hc H].
  destruct c as [|a c]; [contradiction|].
  destruct (IH (idx + 1) H) as (l & Hl).
  simpl. unfold index. simpl. rewrite Hl. simpl. eauto.
Qed.

Lemma save_results_ok now self w :
  Forall (fun c : list article => c <> []) (clusters self) ->
  exists w' out files,
    save_results now self w = Ok w'
    /\ emits w w' out files
    /\ Forall (fun m => is_pairwise_msg m = false) out
    /\ (In "similar_pairs.json"%string (map fst files) <-> duplicates self <> []).
Proof.
  intros Hcs. unfold save_results.
  destruct (generate_report_ok now self (print MsgSaving w)) as (r & ->).
  rewrite bind_Ok. cbv beta iota.
  set (w1 := print (MsgSaved "similarity_report.json")
               (write_file "similarity_report.json" (ReportJson r)
                  (print MsgGenerating (print MsgSaving w)))).
  assert (emits w w1 [MsgSaving; MsgGenerating; MsgSaved "similarity_report.json"]
            [("similarity_report.json"%string, ReportJson r)]) as E1.
  { split; simpl; rewrite <- ?app_assoc; reflexivity. }
  set (w2 := match duplicates self with
             | [] => w1
             | _ :: _ =>
                 print (MsgSaved "similar_pairs.json")
                   (write_file "similar_pairs.json" (PairsJson (duplicates self)) w1)
             end).
  assert (exists o2 f2, emits w1 w2 o2 f2
            /\ Forall (fun m => is_pairwise_msg m = false) o2
            /\ (In "similar_pairs.json"%string (map fst f2) <-> duplicates self <> [])
            /\ Forall (fun f => f = "similar_pairs.json"%string) (map fst f2))
    as (o2 & f2 & E2 & P2 & I2 & N2).
  { subst w2. destruct (duplicates self) as [|d ds].
    - exists [], []. split; [apply emits_refl|]. split; [constructor|].
      split; [|constructor]. simpl. split; [tauto|congruence].
    - exists [MsgSaved "similar_pairs.json"], [("similar_pairs.json"%string, PairsJson (d :: ds))].
      split; [split; reflexivity|]. split; [repeat constructor|].
      split; [|repeat constructor]. simpl. split; [congruence|auto]. }
  assert (exists w3 o3 f3,
            match clusters self with
            | [] => Ok w2
            | _ :: _ =>
                clusters_data ← clusters_data_from 0 (take 100 (clusters self));
                Ok (print (MsgSaved "duplicate_clusters.json")
                      (write_file "duplicate_clusters.json" (ClustersJson clusters_data) w2))
            end = Ok w3
            /\ emits w2 w3 o3 f3
            /\ Forall (fun m => is_pairwise_msg m = false) o3
            /\ Forall (fun f => f = "duplicate_clusters.json"%string) (map fst f3))
    as (w3 & o3 & f3 & -> & E3 & P3 & N3).
  { destruct (clusters self) as [|c cs] eqn:Ecs.
    - exists w2, [], []. split; [reflexivity|]. split; [apply emits_refl|].
      split; constructor.
    - destruct (clusters_data_from_ok (take 100 (c :: cs)) 0) as (l & ->).
      { apply Forall_take. exact Hcs. }
      rewrite bind_Ok. eexists _, [_], [(_, _)].
      split; [reflexivity|]. split; [split; reflexivity|].
      split; repeat constructor. }
  rewrite bind_Ok.
  eexists _, _, _. split; [reflexivity|]. split.
  - eapply emits_trans; [exact E1|].
    eapply emits_trans; [exact E2|].
    eapply emits_trans; [exact E3|].
    eapply emits_trans; [apply emits_write|apply emits_print].
  - split.
    + repeat (apply Forall_app; split); try assumption; repeat constructor.
    + rewrite !map_app, !in_app_iff. simpl. rewrite <- I2.
      rewrite Forall_forall in N3. split; [|tauto].
      intros [[H|[]]|[H|[H|[[H|[]]|[]]]]]; try discriminate; [assumption|].
      apply list_elem_of_In, N3 in H. discriminate.
Qed.

Lemma clusters_nonempty arts :
  Forall (fun c : list article => c <> []) (sort_by_len_desc (groups_spec arts)).
Proof.
  apply Forall_forall. intros c Hc.
  rewrite (sort_by_len_desc_perm (groups_spec arts)) in Hc.
  apply in_groups_spec in Hc as (k & _ & _ & Hlen).
  intros ->. simpl in Hlen. lia.
Qed.

Lemma load_articles_some rows self w :
  load_articles (Some rows) self w
  = (true, set_articles self rows,
     print (MsgLoaded (len rows)) (print MsgLoading w)).
Proof. reflexivity. Qed.

(** C8.  On a corpus that exists, [analyze] returns a report.  The line
    that [find_similar_pairs] prints first is among the lines printed if
    and only if the corpus has at most 10000 rows; then [duplicates] is
    the result of [find_similar_pairs] at n-gram size 3.  Above 10000
    rows [duplicates] is left as it was, no line of [find_similar_pairs]
    is printed, and the file similar_pairs.json is not written when
    [duplicates] was empty.  In both cases [clusters] is the result of
    [cluster_by_exact_match] on the rows. *)
Theorem analyze_pairwise_cutoff rows now1 now2 self w :
  exists r self' w' out files,
    analyze (Some rows) now1 now2 self w = Ok (Some r, self', w')
    /\ emits w w' out files
    /\ articles self' = rows
    /\ clusters self' = sort_by_len_desc (groups_spec rows)
    /\ (In (MsgAnalyzing 3) out <-> len rows <= 10000)
    /\ (len rows <= 10000 ->
        duplicates self' = similar_pairs_spec (similarity_threshold self) 3 rows)
    /\ (10000 < len rows ->
        duplicates self' = duplicates self
        /\ Forall (fun m => is_pairwise_msg m = false) out
        /\ (duplicates self = [] ->
            ~ In "similar_pairs.json"%string (map fst files))).
Proof.
  unfold analyze. rewrite load_articles_some. cbv beta iota. simpl negb. cbv iota.
  set (self1 := set_articles self rows).
  set (w1 := print (MsgLoaded (len rows)) (print MsgLoading w)).
  assert (emits w w1 [MsgLoading; MsgLoaded (len rows)] []) as E1.
  { split; simpl; rewrite <- ?app_assoc, ?app_nil_r; reflexivity. }
  destruct (cluster_by_exact_match_ok self1 w1)
    as (w2 & -> & Hw2 & (nc & tot & tail & Ho2 & Htail)).
  cbv beta iota.
  set (cs := sort_by_len_desc (groups_spec (articles self1))).
  set (self2 := set_clusters self1 cs).
  assert (emits w1 w2 ([MsgClustering; MsgFoundClusters nc tot] ++ tail) []) as E2.
  { split; [exact Ho2|rewrite app_nil_r; exact Hw2]. }
  assert (Forall (fun m => is_pairwise_msg m = false)
            ([MsgClustering; MsgFoundClusters nc tot] ++ tail)) as P2.
  { apply Forall_app. split; [repeat constructor|].
    eapply Forall_impl; [exact Htail|]. intros m (k & ->). reflexivity. }
  change (articles self2) with rows.
  unfold max_articles_for_pairwise.
  destruct (Z.leb_spec (len rows) 10000) as [Hle|Hgt].
  - destruct (find_similar_pairs_ok 3 self2 w2)
      as (w3 & -> & Hw3 & (extra & Ho3 & Hextra)).
    rewrite bind_Ok. cbv beta iota. rewrite bind_Ok. cbv beta iota.
    set (ps := similar_pairs_spec (similarity_threshold self2) 3 (articles self2)).
    set (self3 := set_duplicates self2 ps).
    destruct (save_results_ok now1 self3 w3) as (w4 & o4 & f4 & -> & E4 & P4 & I4).
    { apply clusters_nonempty. }
    rewrite bind_Ok.
    destruct (generate_report_ok now2 self3 w4) as (r & ->).
    rewrite bind_Ok. cbv beta iota.
    eexists r, self3, _, _, _. split; [reflexivity|]. split.
    { eapply emits_trans; [exact E1|].
      eapply emits_trans; [exact E2|].
      eapply emits_trans; [split; [exact Ho3|rewrite app_nil_r; exact Hw3]|].
      eapply emits_trans; [exact E4|apply emits_print]. }
    split; [reflexivity|]. split; [reflexivity|]. split; [|split].
    + split; [intros _; exact Hle|]. intros _.
      rewrite !in_app_iff. right. right. left. simpl. auto.
    + intros _. reflexivity.
    + intros Hgt. lia.
  - rewrite bind_Ok. cbv beta iota.
    set (w3 := print MsgConsider
                 (print (MsgLimited 10000) (print (MsgSkipping (len rows)) w2))).
    assert (emits w2 w3 [MsgSkipping (len rows); MsgLimited 10000; MsgConsider] []) as E3.
    { split; simpl; rewrite <- ?app_assoc, ?app_nil_r; reflexivity. }
    destruct (save_results_ok now1 self2 w3) as (w4 & o4 & f4 & -> & E4 & P4 & I4).
    { apply clusters_nonempty. }
    rewrite bind_Ok.
    destruct (generate_report_ok now2 self2 w4) as (r & ->).
    rewrite bind_Ok. cbv beta iota.
    eexists r, self2, _, _, _. split; [reflexivity|]. split.
    { eapply emits_trans; [exact E1|].
      eapply emits_trans; [exact E2|].
      eapply emits_trans; [exact E3|].
      eapply emits_trans; [exact E4|apply emits_print]. }
    assert (Forall (fun m => is_pairwise_msg m = false)
              ([MsgLoading; MsgLoaded (len rows)]
               ++ ([MsgClustering; MsgFoundClusters nc tot] ++ tail)
               ++ [MsgSkipping (len rows); MsgLimited 10000; MsgConsider]
               ++ o4 ++ [MsgGenerating])) as Pall.
    { apply Forall_app; split; [repeat constructor|].
      apply Forall_app; split; [exact P2|].
      apply Forall_app; split; [repeat constructor|].
      apply Forall_app; split; [exact P4|repeat constructor]. }
    split; [reflexivity|]. split; [reflexivity|]. split; [|split].
    + split; [|lia]. intros Hin%list_elem_of_In.
      rewrite Forall_forall in Pall. apply Pall in Hin. discriminate.
    + intros Hle. lia.
    + intros _. split; [reflexivity|]. split; [exact Pall|].
      intros Hnil. simpl. rewrite app_nil_r. rewrite I4. simpl. tauto.
Qed.

(** C9 (amended).  [load_articles] keeps every row of the corpus, in
    order and with nothing removed or overwritten: the collection loaded
    has the length of the input, and its URLs are pairwise different
    exactly when those of the input rows are. *)
Theorem load_articles_keeps_rows rows self w :
  let '(loaded, self', w') := load_articles (Some rows) self w in
  loaded = true
  /\ articles self' = rows
  /\ length (articles self') = length rows
  /\ (NoDup (urls (articles self')) <-> NoDup (urls rows))
  /\ clusters self' = clusters self /\ duplicates self' = duplicates self.
Proof. simpl. repeat split; auto. Qed.

End PipelineTheorems.


(** ** The exact runtime satisfies what is assumed *)

Lemma exact_lower_on_ascii : lower_on_ascii (@lower exact_runtime).
Proof. intros s _. reflexivity. Qed.

Lemma exact_truediv_exact_one : truediv_exact_one (@truediv exact_runtime).
Proof.
  intros k Hk. simpl. rewrite Qred_correct.
  apply Qmult_inv_r. unfold Qeq. simpl. lia.
Qed.

Lemma exact_truediv_in_unit : truediv_in_unit (@truediv exact_runtime).
Proof.
  intros a b Ha Hb. simpl. rewrite Qred_correct.
  assert (0 < inject_Z b)%Q as Hb' by (unfold Qlt; simpl; lia).
  split.
  - apply Qle_shift_div_l; [exact Hb'|]. unfold Qle. simpl. lia.
  - apply Qle_shift_div_r; [exact Hb'|]. unfold Qle. simpl. lia.
Qed.

(** ** Instances of the theorems *)

Lemma normalize_text_idempotent_witness :
  lower_on_ascii (@lower exact_runtime)
  /\ @normalize_text exact_runtime
       (PStr (@normalize_text exact_runtime (PStr (str "Hello, World!  123"))))
     = @normalize_text exact_runtime (PStr (str "Hello, World!  123")).
Proof.
  split; [intros s _; reflexivity|].
  apply (@normalize_text_idempotent exact_runtime). intros s _. reflexivity.
Defined.

Lemma normalize_text_steps_witness :
  lower_on_ascii (@lower exact_runtime)
  /\ @normalize_text exact_runtime (PStr (str "Hello, World!  123"))
     = str "hello world 123".
Proof.
  split; [intros s _; reflexivity|].
  apply (@normalize_text_steps exact_runtime). intros s _. reflexivity.
Defined.

Lemma generate_ngrams_spec_witness :
  (1 <= 3)%nat
  /\ @generate_ngrams exact_runtime (PStr []) 3 = {[ [] ]}.
Proof.
  split; [lia|].
  apply (@generate_ngrams_spec exact_runtime (PStr []) 3); [lia|reflexivity].
Defined.

Lemma identical_titles_witness :
  truediv_exact_one (@truediv exact_runtime)
  /\ (1 <= 3)%nat
  /\ sample_corpus !! 0%nat = Some (titled "Foo Bar" "u1")
  /\ sample_corpus !! 1%nat = Some (titled "foo  bar!" "u2")
  /\ (0 < 1)%nat
  /\ @key_of exact_runtime (titled "Foo Bar" "u1")
     = @key_of exact_runtime (titled "foo  bar!" "u2")
  /\ (@pair_similarity exact_runtime 3 sample_corpus (0, 1)%nat == 1)%Q.
Proof.
  assert (@key_of exact_runtime (titled "Foo Bar" "u1")
          = @key_of exact_runtime (titled "foo  bar!" "u2")) as Hkey
    by (vm_compute; reflexivity).
  split; [exact exact_truediv_exact_one|]. split; [lia|].
  split; [reflexivity|]. split; [reflexivity|]. split; [lia|]. split; [exact Hkey|].
  apply (@identical_titles exact_runtime 3 (analyzer_of sample_corpus (Fin 0.85))
           empty_world 0%nat 1%nat (titled "Foo Bar" "u1") (titled "foo  bar!" "u2"));
    [exact exact_truediv_exact_one|lia|reflexivity|reflexivity|lia|exact Hkey].
Defined.

Lemma find_similar_pairs_threshold_extremes_witness :
  truediv_in_unit (@truediv exact_runtime)
  /\ exists ps w',
       @find_similar_pairs exact_runtime 3 (analyzer_of sample_corpus (Fin 0)) empty_world
       = Ok (ps, set_duplicates (analyzer_of sample_corpus (Fin 0)) ps, w').
Proof.
  split; [exact exact_truediv_in_unit|].
  apply (@find_similar_pairs_threshold_extremes exact_runtime 3
           (analyzer_of sample_corpus (Fin 0)) empty_world exact_truediv_in_unit).
Defined.

(** ** Where the specification and the code part *)

(** C1: two articles whose titles normalize to the empty string get
    similarity 1 but are put in no cluster. *)
Lemma untitled_articles_not_clustered :
  @key_of exact_runtime (titled EmptyString "https://example.org/1")
  = @key_of exact_runtime (titled "!!!" "https://example.org/2")
  /\ ~ (exists c,
          In c (@cluster_by_exact_match exact_runtime
                  (analyzer_of untitled_corpus (Fin 0.85)) empty_world).1.1
          /\ In (titled EmptyString "https://example.org/1") c
          /\ In (titled "!!!" "https://example.org/2") c).
Proof.
  split; [vm_compute; reflexivity|].
  assert ((@cluster_by_exact_match exact_runtime
             (analyzer_of untitled_corpus (Fin 0.85)) empty_world).1.1 = []) as ->
    by (vm_compute; reflexivity).
  intros (c & [] & _).
Qed.

(** C5: the pattern of the source does not match in "ftp://x", which
    normalizes to "ftp x"; the steps of the claim, which remove a URL of
    any scheme, give the empty string. *)
Lemma ftp_url_not_removed :
  @normalize_text exact_runtime (PStr (str "ftp://x")) = str "ftp x"
  /\ @normalize_claimed exact_runtime (PStr (str "ftp://x")) = []
  /\ @normalize_text exact_runtime (PStr (str "ftp://x"))
     <> @normalize_claimed exact_runtime (PStr (str "ftp://x")).
Proof.
  assert (@normalize_text exact_runtime (PStr (str "ftp://x")) = str "ftp x") as H1
    by (vm_compute; reflexivity).
  assert (@normalize_claimed exact_runtime (PStr (str "ftp://x")) = []) as H2
    by (vm_compute; reflexivity).
  split; [exact H1|]. split; [exact H2|]. rewrite H1, H2. discriminate.
Qed.

(** C9: two rows with one URL are both loaded. *)
Lemma shared_url_rows_both_loaded :
  length (articles (load_articles (Some shared_url_corpus)
                      (init "data" (Fin 0.85)) empty_world).1.2) = 2%nat
  /\ ~ NoDup (urls (articles (load_articles (Some shared_url_corpus)
                                (init "data" (Fin 0.85)) empty_world).1.2)).
Proof.
  split; [reflexivity|].
  assert (urls (articles (load_articles (Some shared_url_corpus)
                            (init "data" (Fin 0.85)) empty_world).1.2)
          = [PStr (str "https://example.org/a"); PStr (str "https://example.org/a")]) as ->
    by (vm_compute; reflexivity).
  intros H. apply NoDup_cons in H as [H _]. apply H. left.
Qed.

(** ** The examples of the specification, on the exact runtime *)

Example sample_corpus_clusters :
  (@cluster_by_exact_match exact_runtime
     (analyzer_of sample_corpus (Fin 0.85)) empty_world).1.1
  = [[titled "Foo Bar" "u1"; titled "foo  bar!" "u2"]].
Proof. vm_compute. reflexivity. Qed.

Example tie_corpus_clusters :
  (@cluster_by_exact_match exact_runtime
     (analyzer_of tie_corpus (Fin 0.85)) empty_world).1.1
  = [[titled "a" "u1"; titled "A" "u3"]; [titled "b" "u2"; titled "B" "u4"]].
Proof. vm_compute. reflexivity. Qed.

Example aab_corpus_report :
  exists cs self w r w',
    @cluster_by_exact_match exact_runtime (analyzer_of aab_corpus (Fin 0.85)) empty_world
    = (cs, self, w)
    /\ @generate_report exact_runtime "now" self w = Ok (r, w')
    /\ total_articles_analyzed r = 3
    /\ num_clusters r = 1
    /\ total_articles_in_clusters r = 2
    /\ truly_unique_articles r = 2
    /\ duplication_rate r = "66.67%"%string
    /\ uniqueness_rate r = "66.67%"%string.
Proof.
  eexists _, _, _, _, _. split; [vm_compute; reflexivity|].
  split; [vm_compute; reflexivity|]. repeat split.
Qed.

Example empty_corpus_report :
  exists r w',
    @generate_report exact_runtime "now" (init "data" (Fin 0.85)) empty_world = Ok (r, w')
    /\ duplication_rate r = "0.00%"%string
    /\ uniqueness_rate r = "0%"%string.
Proof. eexists _, _. split; [vm_compute; reflexivity|]. split; reflexivity. Qed.

Example repeated_ngrams_once :
  @generate_ngrams exact_runtime (PStr (str "aaaa")) 2 = {[ str "aa" ]}.
Proof. vm_compute. reflexivity. Qed.

(** * Further properties *)

(** ** Jaccard similarity *)

Section JaccardExtras.
Context {rt : Runtime}.

(** X1.  [calculate_jaccard_similarity] is symmetric in its two sets. *)
Theorem calculate_jaccard_similarity_symmetric (set1 set2 : gset pystr) :
  calculate_jaccard_similarity set1 set2
  = calculate_jaccard_similarity set2 set1.
Proof.
  unfold calculate_jaccard_similarity.
  rewrite (orb_comm (bool_decide (set1 = ∅))).
  assert (set1 ∩ set2 = set2 ∩ set1) as -> by apply intersection_comm_L.
  assert (set1 ∪ set2 = set2 ∪ set1) as -> by apply union_comm_L.
  reflexivity.
Qed.

(** X2.  [calculate_jaccard_similarity] never raises: the division is
    reached only with a non-empty union.  The value lies in [[0, 1]], is
    0 when one of the sets is empty, and is the quotient [0 / (|A| + |B|)]
    for disjoint non-empty sets.  The quotient of [0 <= a <= b] is assumed
    to lie in [[0, 1]]. *)
Theorem calculate_jaccard_similarity_range (set1 set2 : gset pystr) :
  truediv_in_unit truediv ->
  exists q,
    calculate_jaccard_similarity set1 set2 = Ok q
    /\ (0 <= q <= 1)%Q
    /\ (set1 = ∅ \/ set2 = ∅ -> q = 0%Q)
    /\ (set1 ## set2 -> set1 <> ∅ -> set2 <> ∅ ->
        q = truediv 0 (Z.of_nat (size set1 + size set2))).
Proof.
  intros Hdiv. exists (jaccard set1 set2).
  split; [apply calculate_jaccard_similarity_ok|].
  split; [apply jaccard_in_unit; exact Hdiv|]. unfold jaccard. split.
  - intros [-> | ->].
    + rewrite bool_decide_eq_true_2 by reflexivity. reflexivity.
    + rewrite (bool_decide_eq_true_2 (∅ = ∅)) by reflexivity.
      rewrite orb_true_r. reflexivity.
  - intros Hdisj H1 H2.
    rewrite !bool_decide_eq_false_2 by assumption. simpl.
    assert (size (set1 ∪ set2) = (size set1 + size set2)%nat) as ->
      by (apply size_union; assumption).
    assert (set1 ∩ set2 = ∅) as -> by (apply disjoint_intersection_L; assumption).
    assert (size (∅ : gset pystr) = 0%nat) as -> by apply size_empty.
    reflexivity.
Qed.

(** X3.  The similarity of a non-empty set with itself is 1, [k / k]
    being assumed to be exactly 1. *)
Theorem calculate_jaccard_similarity_same (set1 : gset pystr) :
  truediv_exact_one truediv ->
  set1 <> ∅ ->
  exists q, calculate_jaccard_similarity set1 set1 = Ok q /\ (q == 1)%Q.
Proof.
  intros Hdiv Hne. exists (jaccard set1 set1).
  split; [apply calculate_jaccard_similarity_ok|apply jaccard_same; assumption].
Qed.
End JaccardExtras.

(** ** Fingerprints *)



Section NgramExtras.
Context {rt : Runtime}.


(** X5.  The fingerprint of a title is the fingerprint of its
    normalization, when [str.lower] lowers ASCII text letter by letter. *)
Theorem generate_ngrams_of_normalized text n :
  lower_on_ascii lower ->
  generate_ngrams (PStr (normalize_text text)) n = generate_ngrams text n.
Proof.
  intros Hlow. apply generate_ngrams_key.
  destruct (normalize_text_words text) as (ws & Hws & ->).
  apply normalize_text_fixes; assumption.
Qed.
End NgramExtras.


(** ** The normalizer, again *)

(** *** The shape of a normalized title *)

Lemma single_spaced_app w t :
  forallb is_alnum w = true -> single_spaced t -> single_spaced (w ++ t).
Proof.
  induction w as [|c w IH]; intros Hw Ht; [exact Ht|].
  simpl in Hw. apply andb_true_iff in Hw as [Hc Hw].
  simpl. split; [left; exact Hc|apply IH; assumption].
Qed.

Lemma head_join w ws :
  normal_word w -> exists c, head (join space (w :: ws)) = Some c /\ is_alnum c = true.
Proof.
  intros [Hne Hw]. destruct w as [|c w]; [contradiction|].
  simpl in Hw. apply andb_true_iff in Hw as [Hc _].
  exists c. split; [|exact Hc]. rewrite join_cons. reflexivity.
Qed.

Lemma single_spaced_join ws :
  Forall normal_word ws -> single_spaced (join space ws).
Proof.
  induction ws as [|w ws IH]; intros H; [exact I|].
  inversion H as [|? ? Hw Hws]; subst. specialize (IH Hws).
  destruct ws as [|w' ws].
  - simpl. rewrite <- (app_nil_r w). apply single_spaced_app; [apply Hw|exact I].
  - rewrite join_cons2. apply single_spaced_app; [apply Hw|].
    inversion Hws as [|? ? Hw' _]; subst.
    destruct (head_join w' ws Hw') as (c & Hc & Hal).
    change (space ++ join space (w' :: ws)) with (32 :: join space (w' :: ws)).
    destruct (join space (w' :: ws)) as [|c' r]; [discriminate|].
    injection Hc as ->. split; [|exact IH].
    right. split; [reflexivity|]. intros ->. vm_compute in Hal. discriminate.
Qed.

Lemma single_spaced_chars s c :
  single_spaced s -> In c s -> is_alnum c = true \/ c = 32.
Proof.
  induction s as [|x s IH]; intros Hs Hin; [destruct Hin|].
  destruct Hs as [Hx Hs]. destruct Hin as [<-|Hin]; [|auto]. destruct Hx as [Hx|[Hx _]]; auto.
Qed.

Lemma single_spaced_last s : single_spaced s -> last s <> Some 32.
Proof.
  induction s as [|x s IH]; intros Hs; [discriminate|].
  destruct Hs as [Hx Hs]. destruct s as [|y s].
  - simpl. destruct Hx as [Hx|[_ []]]. intros [= ->]. vm_compute in Hx. discriminate.
  - change (last (x :: y :: s)) with (last (y :: s)). apply IH, Hs.
Qed.

Lemma single_spaced_no_double s pre post :
  single_spaced s -> s <> pre ++ [32; 32] ++ post.
Proof.
  revert s. induction pre as [|x pre IH]; intros s Hs E; subst s.
  - simpl in Hs. destruct Hs as [[H|[_ H]] _]; [vm_compute in H; discriminate|].
    apply H. reflexivity.
  - simpl in Hs. destruct Hs as [_ Hs]. exact (IH _ Hs eq_refl).
Qed.

(** *** Text without letters or digits *)

Lemma match_http_url_h s k : match_http_url s = Some k -> In 104 s.
Proof.
  unfold match_http_url.
  destruct (match_lit (str "http") s) as [r|] eqn:E; [|discriminate].
  apply match_lit_app in E. subst s. intros _. left. reflexivity.
Qed.

Lemma re_sub_http_no_h s :
  (forall c, In c s -> c <> 104) -> re_sub match_http_url [] s = s.
Proof.
  unfold re_sub. induction s as [|c s IH]; intros H; [reflexivity|].
  simpl. destruct (match_http_url (c :: s)) as [k|] eqn:E.
  - apply match_http_url_h in E. apply H in E. congruence.
  - f_equal. apply IH. intros; apply H; simpl; auto.
Qed.

Lemma split_from_spaces s :
  forallb isspace s = true -> split_from [] s = [].
Proof.
  induction s as [|c s IH]; intros H; [reflexivity|].
  simpl in H. apply andb_true_iff in H as [Hc H]. simpl. rewrite Hc. auto.
Qed.

Lemma keep_or_space_not_alnum c :
  is_alnum c = false -> isspace (keep_or_space c) = true.
Proof.
  unfold is_alnum, keep_or_space. intros ->. simpl.
  destruct (isspace c) eqn:E; [exact E|reflexivity].
Qed.

Section NormalizerExtras.
Context {rt : Runtime}.

(** X6.  A normalized title holds only the characters [a-z], [0-9] and
    the space; it neither starts nor ends with a space and has no two
    spaces in a row. *)
Theorem normalize_text_shape text :
  let s := normalize_text text in
  (forall c, In c s -> is_alnum c = true \/ c = 32)
  /\ head s <> Some 32
  /\ last s <> Some 32
  /\ (forall pre post, s <> pre ++ [32; 32] ++ post).
Proof.
  intros s. subst s.
  destruct (normalize_text_words text) as (ws & Hws & ->).
  pose proof (single_spaced_join ws Hws) as Hs.
  split; [intros c; apply single_spaced_chars; exact Hs|].
  split; [|split; [apply single_spaced_last; exact Hs|
                   intros pre post; apply single_spaced_no_double; exact Hs]].
  destruct ws as [|w ws]; [discriminate|].
  inversion Hws as [|? ? Hw _]; subst.
  destruct (head_join w ws Hw) as (c & -> & Hc).
  intros [= ->]. vm_compute in Hc. discriminate.
Qed.

(** X7.  Two ASCII titles that differ only in the case of their
    letters have the same normalization, when [str.lower] lowers ASCII
    text letter by letter. *)
Theorem normalize_text_ignores_case s1 s2 :
  lower_on_ascii lower ->
  forallb is_ascii s1 = true -> forallb is_ascii s2 = true ->
  map ascii_lower s1 = map ascii_lower s2 ->
  normalize_text (PStr s1) = normalize_text (PStr s2).
Proof.
  intros Hlow H1 H2 E. unfold normalize_text.
  assert (truthy (PStr s1) = truthy (PStr s2)) as ->.
  { destruct s1, s2; try reflexivity; discriminate. }
  rewrite (Hlow s1 H1), (Hlow s2 H2), E. reflexivity.
Qed.

(** X8.  An ASCII title without any letter or digit normalizes to the
    empty string, when [str.lower] lowers ASCII text letter by letter. *)
Theorem normalize_text_without_alnum s :
  lower_on_ascii lower ->
  forallb is_ascii s = true ->
  (forall c, In c s -> is_ascii_alnum c = false) ->
  normalize_text (PStr s) = [].
Proof.
  intros Hlow Hascii Hno. unfold normalize_text.
  destruct (truthy (PStr s)); [|reflexivity]. simpl.
  rewrite (Hlow s Hascii).
  assert (map ascii_lower s = s) as ->.
  { rewrite <- (map_id s) at 2. apply map_ext_in. intros c Hc.
    specialize (Hno c Hc). unfold is_ascii_alnum in Hno.
    apply orb_false_iff in Hno as [_ Hup]. unfold ascii_lower. rewrite Hup. reflexivity. }
  rewrite re_sub_http_no_h.
  2:{ intros c Hc ->. specialize (Hno 104 Hc). vm_compute in Hno. discriminate. }
  rewrite re_sub_class. unfold split. rewrite split_from_spaces; [reflexivity|].
  apply forallb_forall. intros c Hc. apply in_map_iff in Hc as (c0 & <- & Hc0).
  apply keep_or_space_not_alnum. specialize (Hno c0 Hc0).
  unfold is_ascii_alnum in Hno. apply orb_false_iff in Hno as [H _]. exact H.
Qed.
End NormalizerExtras.


(** *** The removal of URLs *)

Lemma re_sub_from_skip (m : pystr -> option nat) repl pre rest :
  re_sub_from m repl (length pre) (pre ++ rest) = re_sub_from m repl 0 rest.
Proof. induction pre as [|c pre IH]; [reflexivity|exact IH]. Qed.

Lemma re_sub_from_sublist (m : pystr -> option nat) s : forall k,
  sublist (re_sub_from m [] k s) s.
Proof.
  induction s as [|c s IH]; intros k; simpl.
  - destruct k, (m []); constructor.
  - destruct k as [|k]; [|apply sublist_cons, IH].
    destruct (m (c :: s)) as [[|j]|]; simpl.
    + apply sublist_skip, IH.
    + apply sublist_cons, IH.
    + apply sublist_skip, IH.
Qed.

Lemma url_start_match s : url_start s <-> exists k, match_http_url s = Some k.
Proof.
  split.
  - intros (scheme & x & rest & Hsch & -> & Hx).
    destruct (run_length_split nonspace (x :: rest)) as (u & rest' & E & Hl & Hu & Hr).
    exists (length (scheme ++ str "://" ++ u)). apply match_http_url_spec.
    exists scheme, u, rest'. rewrite <- E.
    split; [exact Hsch|]. split; [reflexivity|]. split; [|auto].
    intros ->. simpl in Hl. rewrite Hx in Hl. discriminate.
  - intros (k & Hk). apply match_http_url_spec in Hk.
    destruct Hk as (scheme & u & rest & Hsch & -> & Hne & Hu & _ & _).
    destruct u as [|x u]; [contradiction|]. simpl in Hu.
    apply andb_true_iff in Hu as [Hx _].
    exists scheme, x, (u ++ rest). auto.
Qed.

Lemma match_http_url_space c s : isspace c = true -> match_http_url (c :: s) = None.
Proof.
  intros Hc. destruct (match_http_url (c :: s)) as [k|] eqn:E; [|reflexivity].
  apply match_http_url_spec in E as (scheme & u & rest & [-> | ->] & E & _);
    injection E as -> _; vm_compute in Hc; discriminate.
Qed.

(** After a match the scan resumes on what follows the URL, which is
    empty or starts with whitespace. *)
Lemma re_sub_http_match s k :
  match_http_url s = Some k ->
  exists url rest,
    s = url ++ rest /\ url <> [] /\ ends_run nonspace rest
    /\ re_sub match_http_url [] s = re_sub match_http_url [] rest.
Proof.
  intros Hk. pose proof Hk as Hspec. apply match_http_url_spec in Hspec.
  destruct Hspec as (scheme & u & rest & Hsch & -> & Hne & Hu & Hr & ->).
  exists (scheme ++ str "://" ++ u), rest.
  assert (exists c url', scheme ++ str "://" ++ u = c :: url') as (c & url' & E)
    by (destruct Hsch as [-> | ->]; eexists _, _; reflexivity).
  split; [rewrite <- !app_assoc; reflexivity|].
  split; [rewrite E; discriminate|]. split; [exact Hr|].
  unfold re_sub.
  assert (scheme ++ str "://" ++ u ++ rest = c :: url' ++ rest) as E'
    by (rewrite !app_assoc, <- (app_assoc scheme), E; reflexivity).
  rewrite E' in Hk |- *. rewrite E in Hk. simpl length in Hk.
  simpl. rewrite Hk. apply re_sub_from_skip.
Qed.

Lemma ends_run_re_sub rest :
  ends_run nonspace rest -> ends_run nonspace (re_sub match_http_url [] rest).
Proof.
  destruct rest as [|c rest]; intros H; [exact I|].
  simpl in H. apply negb_false_iff in H.
  unfold re_sub. simpl. rewrite (match_http_url_space c rest H). simpl.
  apply negb_false_iff. exact H.
Qed.

(** What is kept up to the first URL is a prefix of the text, and what
    comes after it is empty or starts with whitespace. *)
Lemma re_sub_http_prefix s :
  exists pre tail post,
    re_sub match_http_url [] s = pre ++ tail /\ s = pre ++ post
    /\ ends_run nonspace tail.
Proof.
  induction s as [|c s (pre & tail & post & E1 & E2 & Ht)].
  - exists [], [], []. repeat split.
  - destruct (match_http_url (c :: s)) as [k|] eqn:Hk.
    + destruct (re_sub_http_match _ _ Hk) as (url & rest & E & _ & Hr & ->).
      exists [], (re_sub match_http_url [] rest), (c :: s).
      repeat split. apply ends_run_re_sub, Hr.
    + exists (c :: pre), tail, post. unfold re_sub in *. simpl. rewrite Hk, E1.
      split; [reflexivity|]. split; [rewrite E2 at 1; reflexivity|exact Ht].
Qed.

Lemma url_start_prefix l tail post :
  url_start (l ++ tail) -> ends_run nonspace tail -> url_start (l ++ post).
Proof.
  intros (scheme & x & rest & Hsch & E & Hx) Ht.
  assert (forallb nonspace (scheme ++ str "://" ++ [x]) = true) as Hpat.
  { rewrite !forallb_app. simpl. rewrite Hx.
    destruct Hsch as [-> | ->]; reflexivity. }
  replace (scheme ++ str "://" ++ x :: rest)
    with ((scheme ++ str "://" ++ [x]) ++ rest) in E
    by (rewrite <- !app_assoc; reflexivity).
  apply app_eq_inv in E as [(k & E1 & E2)|(k & E1 & E2)].
  - exists scheme, x, (k ++ post). split; [exact Hsch|]. split; [|exact Hx].
    rewrite E1, <- !app_assoc. reflexivity.
  - destruct k as [|y k].
    + rewrite app_nil_r in E1. exists scheme, x, post.
      split; [exact Hsch|]. split; [|exact Hx].
      rewrite <- E1, <- !app_assoc. reflexivity.
    + exfalso. subst tail. simpl in Ht.
      rewrite E1, forallb_app in Hpat. apply andb_true_iff in Hpat as [_ Hpat].
      simpl in Hpat. rewrite Ht in Hpat. discriminate.
Qed.

Lemma re_sub_http_no_match_id s :
  (forall pre t, s = pre ++ t -> match_http_url t = None) ->
  re_sub match_http_url [] s = s.
Proof.
  unfold re_sub. induction s as [|c s IH]; intros H; [reflexivity|].
  simpl. rewrite (H [] (c :: s) eq_refl). f_equal. apply IH.
  intros pre t ->. apply (H (c :: pre) t). reflexivity.
Qed.

Lemma re_sub_http_clean s : forall pre t,
  re_sub match_http_url [] s = pre ++ t -> match_http_url t = None.
Proof.
  induction s as [s IH] using (induction_ltof1 _ (@length codepoint)).
  unfold ltof in IH. intros pre t E.
  destruct s as [|c s]; [destruct pre, t; try discriminate; reflexivity|].
  destruct (match_http_url (c :: s)) as [k|] eqn:Hk.
  - destruct (re_sub_http_match _ _ Hk) as (url & rest & Es & Hne & _ & Er).
    rewrite Er in E. apply (IH rest) with (pre := pre); [|exact E].
    rewrite Es, length_app.
    destruct url as [|y url]; [contradiction|simpl; lia].
  - assert (re_sub match_http_url [] (c :: s) = c :: re_sub match_http_url [] s) as Ec
      by (unfold re_sub; simpl; rewrite Hk; reflexivity).
    rewrite Ec in E. destruct pre as [|x pre].
    + simpl in E. subst t.
      destruct (match_http_url (c :: re_sub match_http_url [] s)) as [k|] eqn:Hk';
        [|reflexivity].
      exfalso. destruct (re_sub_http_prefix s) as (p & tail & post & E1 & E2 & Ht).
      assert (url_start ((c :: p) ++ tail)) as Hu.
      { apply url_start_match. exists k. simpl. rewrite <- E1. exact Hk'. }
      apply url_start_prefix with (post := post) in Hu; [|exact Ht].
      apply url_start_match in Hu as (k' & Hk''). simpl in Hk''. rewrite <- E2 in Hk''.
      congruence.
    + injection E as -> E. apply (IH s) with (pre := pre); [simpl; lia|exact E].
Qed.

(** X9.  The removal of URLs only deletes characters; in its result no
    position starts with [http://] or [https://] followed by a character
    that is not whitespace, and removing URLs again changes nothing. *)
Theorem url_removal_complete s :
  let s' := re_sub match_http_url [] s in
  sublist s' s
  /\ (forall pre t, s' = pre ++ t -> ~ url_start t)
  /\ re_sub match_http_url [] s' = s'.
Proof.
  intros s'. split; [apply re_sub_from_sublist|]. split.
  - intros pre t E Hu. apply url_start_match in Hu as (k & Hk).
    rewrite (re_sub_http_clean s pre t E) in Hk. discriminate.
  - apply re_sub_http_no_match_id. intros pre t E.
    apply (re_sub_http_clean s pre t E).
Qed.



(** ** The pairwise matcher, again *)

(** *** Progress lines *)

Lemma progress_lines_nil c total : progress_lines c 0 total = [].
Proof. reflexivity. Qed.

Lemma progress_lines_step c n total :
  0 <= n ->
  progress_lines c (1 + n) total
  = (if (c + 1) mod 100000 =? 0 then [MsgProgress (c + 1) total] else [])
    ++ progress_lines (c + 1) n total.
Proof.
  intros Hn. unfold progress_lines.
  rewrite seqZ_cons by lia.
  replace (Z.succ (c + 1)) with (c + 1 + 1) by lia.
  replace (Z.pred (1 + n)) with n by lia.
  rewrite filter_cons.
  destruct (Z.eqb_spec ((c + 1) mod 100000) 0) as [E|E].
  - rewrite decide_True by exact E. reflexivity.
  - rewrite decide_False by exact E. reflexivity.
Qed.

Lemma progress_lines_app c a b total :
  0 <= a -> 0 <= b ->
  progress_lines c (a + b) total
  = progress_lines c a total ++ progress_lines (c + a) b total.
Proof.
  intros Ha Hb. unfold progress_lines.
  rewrite seqZ_app by assumption. rewrite filter_app, fmap_app.
  replace (c + 1 + a) with (c + a + 1) by lia. reflexivity.
Qed.

Lemma add_progress_0 c total w : add_progress c 0 total w = w.
Proof.
  unfold add_progress. destruct w as [o f]. simpl. rewrite app_nil_r. reflexivity.
Qed.

Lemma add_progress_step c n total w :
  0 <= n ->
  add_progress (c + 1) n total (progress (c + 1) total w)
  = add_progress c (1 + n) total w.
Proof.
  intros Hn. unfold add_progress, progress.
  rewrite progress_lines_step by assumption.
  destruct ((c + 1) mod 100000 =? 0); simpl; [rewrite <- app_assoc|]; reflexivity.
Qed.

Lemma add_progress_app c a b total w :
  0 <= a -> 0 <= b ->
  add_progress (c + a) b total (add_progress c a total w)
  = add_progress c (a + b) total w.
Proof.
  intros Ha Hb. unfold add_progress. simpl.
  rewrite progress_lines_app, app_assoc by assumption. reflexivity.
Qed.

(** The multiples of [N] among [1 .. n]. *)
Lemma multiples_upto N (n : nat) :
  0 < N ->
  filter (fun k => k mod N = 0) (seqZ 1 (Z.of_nat n))
  = (fun j => N * j) <$> seqZ 1 (Z.of_nat n / N).
Proof.
  intros HN. induction n as [|n IH]; [rewrite Zdiv_0_l; reflexivity|].
  rewrite seqZ_S, filter_app, IH, filter_cons, filter_nil.
  pose proof (Z.div_mod (Z.of_nat n) N ltac:(lia)) as Hdm.
  pose proof (Z.mod_pos_bound (Z.of_nat n) N HN) as Hr.
  set (q := Z.of_nat n / N) in *. set (r := Z.of_nat n mod N) in *.
  assert (0 <= q) as Hq by (apply Z.div_pos; lia).
  destruct (decide ((1 + Z.of_nat n) mod N = 0)) as [E|E].
  - assert (1 + Z.of_nat n = N * (q + 1)) as Hmul.
    { apply Z.mod_divide in E; [|lia]. destruct E as [z Hz].
      assert (0 < z - q) by nia. assert (z - q < 2) by nia.
      replace z with (q + 1) in Hz by lia. lia. }
    assert (Z.of_nat (S n) / N = q + 1) as ->.
    { symmetry. apply (Z.div_unique_exact); lia. }
    replace (q + 1) with (Z.of_nat (S (Z.to_nat q))) by lia.
    rewrite seqZ_S, fmap_app. replace (Z.of_nat (Z.to_nat q)) with q by lia.
    simpl. f_equal. f_equal. lia.
  - assert (Z.of_nat (S n) / N = q) as ->.
    { symmetry. apply (Z.div_unique _ _ _ (r + 1)); [|lia].
      left. split; [lia|].
      destruct (Z.eq_dec (r + 1) N) as [Er|]; [|lia].
      exfalso. apply E. replace (1 + Z.of_nat n) with (N * (q + 1)) by lia.
      rewrite Z.mul_comm. apply Z_mod_mult. }
    rewrite app_nil_r. reflexivity.
Qed.

Lemma progress_lines_explicit total n :
  0 <= n ->
  progress_lines 0 n total
  = (fun j => MsgProgress (100000 * j) total) <$> seqZ 1 (n / 100000).
Proof.
  intros Hn. unfold progress_lines. simpl.
  replace n with (Z.of_nat (Z.to_nat n)) at 1 by lia.
  rewrite multiples_upto by lia.
  replace (Z.of_nat (Z.to_nat n)) with n by lia.
  rewrite <- list_fmap_compose. reflexivity.
Qed.

Section MatcherExtras.
Context {rt : Runtime}.

Lemma inner_loop_exact thr n (arts : list article) total i :
  (i < length arts)%nat ->
  forall js sp c w,
    (forall j, In j js -> (j < length arts)%nat) ->
    for_each js
      (compare_pair thr (map (fun a => (a, title_ngrams n a)) arts) total i)
      (sp, c, w)
    = Ok (sp ++ map (emitted n arts)
                  (filter (retained thr n arts) (map (fun j => (i, j)) js)),
          c + len js, add_progress c (len js) total w).
Proof.
  intros Hi. induction js as [|j js IH]; intros sp c w Hjs.
  - simpl. rewrite app_nil_r. unfold len. simpl.
    rewrite Z.add_0_r, add_progress_0. reflexivity.
  - rewrite for_each_cons, compare_pair_ok by (auto; apply Hjs; simpl; auto).
    rewrite bind_Ok, IH by (intros; apply Hjs; simpl; auto).
    rewrite <- app_assoc, <- map_app, <- filter_app.
    rewrite add_progress_step by (unfold len; lia).
    replace (c + 1 + len js) with (c + len (j :: js))
      by (unfold len; simpl length; lia).
    replace (1 + len js) with (len (j :: js)) by (unfold len; simpl length; lia).
    reflexivity.
Qed.

Lemma outer_loop_exact thr n (arts : list article) total :
  forall rows sp c w,
    (forall i, In i rows -> (i < length arts)%nat) ->
    for_each rows
      (fun i =>
         for_each (range (i + 1) (length arts))
           (compare_pair thr (map (fun a => (a, title_ngrams n a)) arts) total i))
      (sp, c, w)
    = Ok (sp ++ map (emitted n arts)
                  (filter (retained thr n arts)
                     (flat_map (fun i => map (fun j => (i, j))
                                           (range (i + 1) (length arts))) rows)),
          c + len (flat_map (fun i => map (fun j => (i, j))
                                        (range (i + 1) (length arts))) rows),
          add_progress c
            (len (flat_map (fun i => map (fun j => (i, j))
                                       (range (i + 1) (length arts))) rows))
            total w).
Proof.
  induction rows as [|i rows IH]; intros sp c w Hrows.
  - simpl. rewrite app_nil_r. unfold len. simpl.
    rewrite Z.add_0_r, add_progress_0. reflexivity.
  - rewrite for_each_cons, inner_loop_exact.
    2:{ apply Hrows. left. reflexivity. }
    2:{ intros j Hj. apply in_range in Hj. lia. }
    rewrite bind_Ok, IH by (intros; apply Hrows; simpl; auto).
    rewrite <- app_assoc, <- map_app, <- filter_app.
    rewrite add_progress_app by (unfold len; lia).
    simpl flat_map.
    assert (len (map (fun j => (i, j)) (range (i + 1) (length arts))
                 ++ flat_map (fun i => map (fun j => (i, j))
                                         (range (i + 1) (length arts))) rows)
            = len (range (i + 1) (length arts))
              + len (flat_map (fun i => map (fun j => (i, j))
                                         (range (i + 1) (length arts))) rows)) as ->
      by (unfold len; rewrite length_app, length_map; lia).
    rewrite Z.add_assoc. reflexivity.
Qed.

(** What [find_similar_pairs] returns, prints and leaves behind. *)
Lemma find_similar_pairs_exact n self w :
  let thr := similarity_threshold self in
  let total := len (articles self) * (len (articles self) - 1) / 2 in
  let ps := similar_pairs_spec thr n (articles self) in
  find_similar_pairs n self w
  = Ok (ps, set_duplicates self ps,
        {| stdout :=
             stdout w
             ++ [MsgAnalyzing n; MsgThreshold thr; MsgPerforming total]
             ++ progress_lines 0 total total
             ++ [MsgFoundPairs (len ps) thr];
           written := written w |}).
Proof.
  intros thr total ps. unfold find_similar_pairs.
  rewrite article_ngrams_map. simpl app. unfold compare_all. rewrite length_map.
  assert (len (map (fun a => (a, title_ngrams n a)) (articles self))
          = len (articles self)) as ->
    by (unfold len; rewrite length_map; reflexivity).
  fold total. fold thr.
  rewrite outer_loop_exact by (intros i Hi; apply in_range in Hi; lia).
  rewrite bind_Ok. cbv beta iota.
  change (flat_map (fun i => map (fun j => (i, j)) (range (i + 1) (length (articles self))))
            (range 0 (length (articles self))))
    with (index_pairs (length (articles self))).
  assert (len (index_pairs (length (articles self))) = total) as ->
    by (unfold len; apply length_index_pairs).
  change ([] ++ map (emitted n (articles self))
                  (filter (retained thr n (articles self))
                     (index_pairs (length (articles self)))))
    with ps.
  unfold print, add_progress. simpl. rewrite <- !app_assoc. reflexivity.
Qed.
End MatcherExtras.



Lemma sublist_map {A B} (f : A -> B) (l1 l2 : list A) :
  sublist l1 l2 -> sublist (map f l1) (map f l2).
Proof.
  induction 1; simpl; [constructor|apply sublist_skip|apply sublist_cons]; assumption.
Qed.

Lemma filter_weaken_sublist {A} (f g : A -> bool) (l : list A) :
  (forall x, g x = true -> f x = true) -> sublist (filter g l) (filter f l).
Proof.
  intros H. induction l as [|x l IH]; [constructor|].
  rewrite !filter_cons. destruct (g x) eqn:Eg; simpl.
  - rewrite (H x Eg). simpl. apply sublist_skip, IH.
  - destruct (f x); simpl; [apply sublist_cons|]; exact IH.
Qed.

Lemma float_ge_weaken s thr1 thr2 :
  float_le thr1 thr2 = true ->
  float_ge (Fin s) thr2 = true -> float_ge (Fin s) thr1 = true.
Proof.
  unfold float_le, float_ge.
  destruct thr1 as [a| | |], thr2 as [b| | |]; try discriminate; try reflexivity.
  intros Hab Hbs. apply Qle_bool_iff in Hab, Hbs. apply Qle_bool_iff.
  eapply Qle_trans; eassumption.
Qed.

Lemma index_pairs_small m : (m <= 1)%nat -> index_pairs m = [].
Proof.
  intros H. destruct m as [|[|m]]; [reflexivity|reflexivity|lia].
Qed.

Section MatcherTheorems.
Context {rt : Runtime}.

(** X10.  [find_similar_pairs] prints its three opening lines, then one
    progress line for every 100000 comparisons, the [j]-th reporting
    [100000 j] of the [m (m - 1) / 2], then the closing line; below 100000
    comparisons no progress line is printed. *)
Theorem find_similar_pairs_output n self w :
  let thr := similarity_threshold self in
  let total := len (articles self) * (len (articles self) - 1) / 2 in
  exists ps self' w',
    find_similar_pairs n self w = Ok (ps, self', w')
    /\ stdout w'
       = stdout w
         ++ [MsgAnalyzing n; MsgThreshold thr; MsgPerforming total]
         ++ ((fun j => MsgProgress (100000 * j) total) <$> seqZ 1 (total / 100000))
         ++ [MsgFoundPairs (len ps) thr]
    /\ (total < 100000 ->
        stdout w'
        = stdout w
          ++ [MsgAnalyzing n; MsgThreshold thr; MsgPerforming total;
              MsgFoundPairs (len ps) thr]).
Proof.
  intros thr total.
  assert (0 <= total) as Htot.
  { unfold total, len. apply Z.div_pos; [|lia].
    destruct (length (articles self)); [reflexivity|nia]. }
  eexists _, _, _. split; [apply find_similar_pairs_exact|].
  fold thr total. simpl stdout. rewrite progress_lines_explicit by exact Htot.
  split; [reflexivity|]. intros Hsmall.
  rewrite Z.div_small by lia. reflexivity.
Qed.

(** X11.  [find_similar_pairs] never raises.  It stores its result in
    [duplicates] and changes nothing else of the analyzer, writes no
    file, returns at most [m (m - 1) / 2] pairs, and returns none for a
    corpus of fewer than two articles. *)
Theorem find_similar_pairs_frame n self w :
  exists ps self' w',
    find_similar_pairs n self w = Ok (ps, self', w')
    /\ duplicates self' = ps
    /\ articles self' = articles self
    /\ clusters self' = clusters self
    /\ similarity_threshold self' = similarity_threshold self
    /\ input_dir self' = input_dir self
    /\ written w' = written w
    /\ len ps <= len (articles self) * (len (articles self) - 1) / 2
    /\ ((length (articles self) <= 1)%nat -> ps = []).
Proof.
  eexists _, _, _. split; [apply find_similar_pairs_exact|].
  repeat (split; [reflexivity|]). split.
  - unfold similar_pairs_spec, len. rewrite length_map.
    rewrite <- length_index_pairs.
    pose proof (length_filter (retained (similarity_threshold self) n (articles self))
                  (index_pairs (length (articles self)))).
    lia.
  - intros Hm. unfold similar_pairs_spec.
    rewrite index_pairs_small by exact Hm. reflexivity.
Qed.

(** X12.  On one corpus, the pairs found with a threshold are a
    sublist of the pairs found with any lower threshold. *)
Theorem find_similar_pairs_monotone n self1 self2 w1 w2 :
  articles self1 = articles self2 ->
  float_le (similarity_threshold self1) (similarity_threshold self2) = true ->
  exists ps1 ps2 s1 s2 w1' w2',
    find_similar_pairs n self1 w1 = Ok (ps1, s1, w1')
    /\ find_similar_pairs n self2 w2 = Ok (ps2, s2, w2')
    /\ sublist ps2 ps1.
Proof.
  intros Harts Hle. eexists _, _, _, _, _, _.
  split; [apply find_similar_pairs_exact|].
  split; [apply find_similar_pairs_exact|].
  unfold similar_pairs_spec. rewrite Harts.
  apply sublist_map, filter_weaken_sublist.
  intros p. unfold retained. apply float_ge_weaken. exact Hle.
Qed.

(** X13.  With the threshold NaN no pair is found, whatever the
    corpus. *)
Theorem find_similar_pairs_nan n self w :
  similarity_threshold self = NaN ->
  exists w', find_similar_pairs n self w = Ok ([], set_duplicates self [], w').
Proof.
  intros Hnan.
  assert (similar_pairs_spec (similarity_threshold self) n (articles self) = []) as E.
  { unfold similar_pairs_spec. rewrite filter_none; [reflexivity|].
    intros p _. unfold retained. rewrite Hnan. reflexivity. }
  eexists. rewrite find_similar_pairs_exact. cbv zeta. rewrite E. reflexivity.
Qed.

(** X14.  Two articles at positions [i < j] whose titles have the same
    normalization, empty or not, are reported by [find_similar_pairs]
    whenever the threshold is [<= 1]: the list returned holds a record
    with the two articles whose [similarity] is 1.  [k / k] is assumed to
    be exactly 1, and [round(1.0, 4)] to be 1. *)
Theorem exact_duplicates_are_similar_pairs n self w i j a b :
  truediv_exact_one truediv ->
  round4_keeps_one round4 ->
  articles self !! i = Some a -> articles self !! j = Some b -> (i < j)%nat ->
  key_of a = key_of b ->
  float_le (similarity_threshold self) (Fin 1) = true ->
  exists ps self' w' p,
    find_similar_pairs n self w = Ok (ps, self', w')
    /\ In p ps
    /\ article1 p = make_ref a
    /\ article2 p = make_ref b
    /\ (similarity p == 1)%Q.
Proof.
  intros Hdiv Hround Hi Hj Hlt Hkey Hthr.
  assert (pair_similarity n (articles self) (i, j) == 1)%Q as Hone.
  { unfold pair_similarity. simpl.
    rewrite (list_lookup_total_correct _ _ _ Hi), (list_lookup_total_correct _ _ _ Hj).
    assert (title_ngrams n b = title_ngrams n a) as ->
      by (symmetry; apply generate_ngrams_key; exact Hkey).
    apply jaccard_same; [assumption|apply generate_ngrams_nonempty]. }
  eexists _, _, _, (emitted n (articles self) (i, j)).
  split; [apply find_similar_pairs_exact|]. cbv zeta. split; [|split; [|split]].
  - unfold similar_pairs_spec. apply in_map_iff. exists (i, j).
    split; [reflexivity|].
    apply list_elem_of_In, list_elem_of_filter. split.
    + unfold retained. apply Is_true_true.
      unfold float_le in Hthr. unfold float_ge in *.
      destruct (similarity_threshold self) as [t| | |]; try discriminate; [|reflexivity].
      apply Qle_bool_iff. apply Qle_bool_iff in Hthr.
      rewrite Hone. exact Hthr.
    + apply list_elem_of_In, in_index_pairs. split; [exact Hlt|].
      eapply lookup_lt_Some. exact Hj.
  - unfold emitted. simpl. rewrite (list_lookup_total_correct _ _ _ Hi). reflexivity.
  - unfold emitted. simpl. rewrite (list_lookup_total_correct _ _ _ Hj). reflexivity.
  - unfold emitted. simpl. apply Hround. exact Hone.
Qed.
End MatcherTheorems.


(** ** Clusters and the report *)

(** *** Counting *)

Lemma dict_append_size k a d :
  length (concat (map snd (dict_append k a d)))
  = S (length (concat (map snd d))).
Proof.
  induction d as [|[k' v] d IH]; simpl; [reflexivity|].
  destruct (decide (k' = k)); simpl.
  - rewrite !length_app. simpl. lia.
  - rewrite !length_app, IH. lia.
Qed.

Lemma concat_length_perm {A} (l1 l2 : list (list A)) :
  Permutation l1 l2 -> length (concat l1) = length (concat l2).
Proof.
  induction 1; simpl; rewrite ?length_app in *; lia.
Qed.

(** Groups that are not empty: the small ones count one article each. *)
Lemma count_groups {A} (G : list (list A)) :
  Forall (fun g => g <> []) G ->
  (length (concat G) + length (filter (fun g => (2 <= length g)%nat) G)
   = length (concat (filter (fun g => (2 <= length g)%nat) G)) + length G)%nat.
Proof.
  induction 1 as [|g G Hg _ IH]; [reflexivity|].
  rewrite filter_cons. simpl concat. simpl length.
  destruct (decide (2 <= length g)%nat) as [H2|H2]; simpl; rewrite !length_app.
  - lia.
  - destruct g as [|x [|y g]]; [contradiction| |simpl in H2; lia]. simpl. lia.
Qed.

Lemma big_groups_size {A} (G : list (list A)) :
  (2 * length (filter (fun g => (2 <= length g)%nat) G)
   <= length (concat (filter (fun g => (2 <= length g)%nat) G))
   <= length (concat G))%nat.
Proof.
  induction G as [|g G IH]; [simpl; lia|].
  rewrite filter_cons. simpl concat.
  destruct (decide (2 <= length g)%nat); simpl; rewrite !length_app; lia.
Qed.

Lemma sorted_head_max {A} (c : list A) cs x :
  StronglySorted len_ge (c :: cs) -> In x (c :: cs) -> (length x <= length c)%nat.
Proof.
  intros H Hin. inversion H as [|? ? _ Hf]; subst.
  destruct Hin as [<-|Hin]; [lia|].
  rewrite Forall_forall in Hf. apply (Hf x), list_elem_of_In, Hin.
Qed.

Section ClusterExtras.
Context {rt : Runtime}.

Lemma untitled_snoc arts a :
  untitled (arts ++ [a])
  = untitled arts ++ if decide (key_of a = []) then [a] else [].
Proof. unfold untitled. rewrite filter_app, filter_cons, filter_nil. reflexivity. Qed.

Lemma title_groups_size arts :
  (length (concat (map snd (title_groups arts))) + length (untitled arts)
   = length arts)%nat.
Proof.
  induction arts as [|a arts IH] using rev_ind; [reflexivity|].
  rewrite title_groups_snoc, untitled_snoc, !length_app.
  destruct (decide (key_of a = [])) as [E|E].
  - rewrite E. simpl. lia.
  - rewrite (proj2 (truthy_PStr _) E), dict_append_size. simpl. lia.
Qed.

Lemma title_groups_values arts :
  map snd (title_groups arts) = map (members arts) (cluster_keys arts).
Proof.
  rewrite title_groups_spec.
  induction (cluster_keys arts) as [|k ks IH]; [reflexivity|].
  simpl. rewrite IH. reflexivity.
Qed.

Lemma groups_nonempty arts :
  Forall (fun g : list article => g <> [])
    (map (members arts) (cluster_keys arts)).
Proof.
  apply Forall_forall. intros g Hg. apply list_elem_of_fmap in Hg as (k & -> & Hk).
  apply elem_of_cluster_keys in Hk as [_ (a & Ha & Hka)].
  intros E. assert (a ∈ members arts k) as Hin
    by (apply list_elem_of_filter; split; assumption).
  rewrite E in Hin. inversion Hin.
Qed.

(** The integer fields of the report. *)
Lemma generate_report_counts now self w :
  exists r,
    generate_report now self w = Ok (r, print MsgGenerating w)
    /\ total_articles_analyzed r = len (articles self)
    /\ num_clusters r = len (clusters self)
    /\ total_articles_in_clusters r = len (concat (clusters self))
    /\ truly_unique_articles r
       = len (articles self) - len (concat (clusters self)) + len (clusters self)
    /\ largest_cluster_size r
       = match clusters self with c :: _ => len c | [] => 0 end
    /\ num_pairs r = len (duplicates self).
Proof.
  unfold generate_report, py_truediv.
  destruct (Z.ltb_spec 0 (len (articles self))) as [Hpos|Hzero].
  - destruct (Z.eqb_spec (len (articles self)) 0) as [E|_]; [lia|].
    eexists. split; [reflexivity|]. simpl. rewrite sum_len_concat.
    repeat split; reflexivity.
  - eexists. split; [reflexivity|]. simpl. rewrite sum_len_concat.
    repeat split; reflexivity.
Qed.

(** X15.  In the report made after [cluster_by_exact_match], the
    number of truly unique articles is the number of distinct non-empty
    normalized titles plus the number of articles whose title normalizes
    to the empty string; twice the number of clusters is at most the
    number of articles in clusters, which with the untitled articles is
    at most the total; so the unique count lies between 0 and the
    total. *)
Theorem report_after_clustering now self w w2 :
  let arts := articles self in
  let '(cs, self', _) := cluster_by_exact_match self w in
  exists r w',
    generate_report now self' w2 = Ok (r, w')
    /\ truly_unique_articles r = len (untitled arts) + len (cluster_keys arts)
    /\ 2 * num_clusters r <= total_articles_in_clusters r
    /\ total_articles_in_clusters r + len (untitled arts)
       <= total_articles_analyzed r
    /\ 0 <= truly_unique_articles r <= total_articles_analyzed r.
Proof.
  intros arts.
  destruct (cluster_by_exact_match_ok self w) as (w1 & -> & _).
  destruct (generate_report_counts now
              (set_clusters self (sort_by_len_desc (groups_spec (articles self)))) w2)
    as (r & Hr & Htot & Hnum & Hin & Huni & _ & _).
  exists r, (print MsgGenerating w2). split; [exact Hr|].
  simpl in Htot, Hnum, Hin, Huni. fold arts in Htot, Hnum, Hin, Huni.
  rewrite Htot, Hnum, Hin, Huni.
  pose proof (sort_by_len_desc_perm (groups_spec arts)) as Hperm.
  pose proof (concat_length_perm _ _ Hperm) as Hc.
  pose proof (Permutation_length Hperm) as Hl.
  pose proof (count_groups _ (groups_nonempty arts)) as Hcount.
  pose proof (big_groups_size (map (members arts) (cluster_keys arts))) as Hbig.
  pose proof (title_groups_size arts) as Hsize.
  rewrite title_groups_values in Hsize.
  fold (groups_spec arts) in Hcount, Hbig.
  rewrite length_map in Hcount.
  unfold len. lia.
Qed.

(** X16.  In the report made after [cluster_by_exact_match],
    [largest_cluster_size] is the largest size of a cluster: it is the
    size of one of the clusters, none is larger, all have two members or
    more; it is 0 when there is no cluster. *)
Theorem largest_cluster_after_clustering now self w w2 :
  let '(cs, self', _) := cluster_by_exact_match self w in
  exists r w',
    generate_report now self' w2 = Ok (r, w')
    /\ (forall c, In c cs -> 2 <= len c <= largest_cluster_size r)
    /\ (cs = [] -> largest_cluster_size r = 0)
    /\ (cs <> [] -> exists c, In c cs /\ len c = largest_cluster_size r).
Proof.
  destruct (cluster_by_exact_match_ok self w) as (w1 & -> & _).
  destruct (generate_report_counts now
              (set_clusters self (sort_by_len_desc (groups_spec (articles self)))) w2)
    as (r & Hr & _ & _ & _ & _ & Hlarge & _).
  exists r, (print MsgGenerating w2). split; [exact Hr|].
  simpl in Hlarge. rewrite Hlarge.
  pose proof (sort_by_len_desc_sorted (groups_spec (articles self))) as Hsorted.
  assert (forall c, In c (sort_by_len_desc (groups_spec (articles self))) ->
                    (2 <= length c)%nat) as Hbig.
  { intros c Hc%list_elem_of_In.
    rewrite (sort_by_len_desc_perm (groups_spec (articles self))) in Hc.
    apply in_groups_spec in Hc as (k & _ & _ & H2). exact H2. }
  destruct (sort_by_len_desc (groups_spec (articles self))) as [|c cs].
  - split; [intros c []|]. split; [reflexivity|]. intros H. contradiction.
  - split; [|split; [discriminate|]].
    + intros x Hx. pose proof (sorted_head_max c cs x Hsorted Hx).
      pose proof (Hbig x Hx). unfold len. lia.
    + intros _. exists c. split; [left|]; reflexivity.
Qed.
End ClusterExtras.


(** ** Writing the results *)

Section SaveExtras.
Context {rt : Runtime}.

Lemma clusters_data_from_entries cs : forall idx k,
  idx = Z.of_nat k ->
  Forall (fun c : list article => c <> []) cs ->
  exists data,
    clusters_data_from idx cs = Ok data
    /\ length data = length cs
    /\ forall i c, cs !! i = Some c ->
         exists first,
           head c = Some first
           /\ data !! i = Some (cluster_entry_of (k + i) first c).
Proof.
  induction cs as [|c cs IH]; intros idx k Hk H.
  - exists []. split; [reflexivity|]. split; [reflexivity|]. intros i c Hc. inversion Hc.
  - apply Forall_cons in H as [Hc H]. destruct c as [|a c]; [contradiction|].
    destruct (IH (idx + 1) (S k) ltac:(lia) H) as (data & Hd & Hl & He).
    exists (cluster_entry_of k a (a :: c) :: data). split; [|split].
    + simpl. unfold index. simpl. rewrite Hd. simpl. subst idx. reflexivity.
    + simpl. rewrite Hl. reflexivity.
    + intros [|i] x Hx; simpl in Hx.
      * injection Hx as <-. exists a. rewrite Nat.add_0_r. split; reflexivity.
      * destruct (He i x Hx) as (first & Hf & Hdi). exists first.
        split; [exact Hf|]. simpl. rewrite Hdi. f_equal. f_equal. lia.
Qed.

Lemma clusters_data_from_raise cs : forall idx,
  In [] cs -> clusters_data_from idx cs = Raise IndexError.
Proof.
  induction cs as [|c cs IH]; intros idx Hin; [destruct Hin|].
  destruct c as [|a c]; [reflexivity|].
  destruct Hin as [Hin|Hin]; [discriminate|].
  simpl. unfold index. simpl. rewrite (IH _ Hin). reflexivity.
Qed.

Lemma generate_report_restamp now now' self w w' r w1 :
  generate_report now self w = Ok (r, w1) ->
  generate_report now' self w' = Ok (restamp now' r, print MsgGenerating w')
  /\ generated_at r = now /\ w1 = print MsgGenerating w.
Proof.
  unfold generate_report, py_truediv.
  destruct (0 <? len (articles self));
    [destruct (len (articles self) =? 0); [discriminate|]|];
    intros [= <- <-]; repeat split.
Qed.

Lemma save_results_exact now self w :
  Forall (fun c : list article => c <> []) (take 100 (clusters self)) ->
  exists r data,
    generate_report now self (print MsgSaving w)
    = Ok (r, print MsgGenerating (print MsgSaving w))
    /\ clusters_data_from 0 (take 100 (clusters self)) = Ok data
    /\ save_results now self w
       = Ok {| stdout := stdout w ++ saved_lines self;
               written := written w ++ saved_files self r data |}.
Proof.
  intros Hcs.
  destruct (generate_report_ok now self (print MsgSaving w)) as (r & Hr).
  destruct (clusters_data_from_entries (take 100 (clusters self)) 0 0%nat eq_refl Hcs)
    as (data & Hd & _).
  exists r, data. split; [exact Hr|]. split; [exact Hd|].
  unfold save_results. rewrite Hr, bind_Ok. cbv beta iota.
  unfold saved_lines, saved_files, summary_rows.
  destruct (duplicates self) as [|d ds], (clusters self) as [|c cs];
    rewrite ?Hd, ?bind_Ok; unfold print, write_file; simpl;
    rewrite <- ?app_assoc; reflexivity.
Qed.

(** X17.  When none of the first 100 clusters is empty, [save_results]
    writes, in this order, the report, the pairs if there are any, the
    clusters if there are any, and the summary, and prints a line for
    each.  The clusters file has an entry for each of the first 100
    clusters and no more; the entry at position [i] has the identifier
    [i + 1], the size and the articles of the cluster, and the
    normalized title of its first article. *)
Theorem save_results_files now self w :
  (forall i, (i < 100)%nat -> clusters self !! i <> Some []) ->
  exists r data w' w0,
    save_results now self w = Ok w'
    /\ generate_report now self (print MsgSaving w) = Ok (r, w0)
    /\ written w' = written w ++ saved_files self r data
    /\ stdout w' = stdout w ++ saved_lines self
    /\ length data = Nat.min 100 (length (clusters self))
    /\ forall i c, (i < 100)%nat -> clusters self !! i = Some c ->
         exists first,
           head c = Some first
           /\ data !! i = Some (cluster_entry_of i first c).
Proof.
  intros Hne.
  assert (Forall (fun c : list article => c <> []) (take 100 (clusters self))) as Hcs.
  { apply Forall_forall. intros c Hc ->.
    apply list_elem_of_lookup in Hc as (i & Hi).
    apply lookup_take_Some in Hi as [Hi Hlt]. exact (Hne i Hlt Hi). }
  destruct (save_results_exact now self w Hcs) as (r & data & Hr & Hd & Hs).
  destruct (clusters_data_from_entries (take 100 (clusters self)) 0 0%nat eq_refl Hcs)
    as (data' & Hd' & Hl & He).
  rewrite Hd in Hd'. injection Hd' as <-.
  eexists r, data, _, _. split; [exact Hs|]. split; [exact Hr|].
  split; [reflexivity|]. split; [reflexivity|].
  split; [rewrite Hl, length_take; reflexivity|].
  intros i c Hi Hc. apply (He i c). rewrite lookup_take_lt by exact Hi. exact Hc.
Qed.

(** X18.  When one of the first 100 clusters is empty, [save_results]
    raises [IndexError]. *)
Theorem save_results_empty_cluster now self w i :
  (i < 100)%nat -> clusters self !! i = Some [] ->
  save_results now self w = Raise IndexError.
Proof.
  intros Hi Hc. unfold save_results.
  destruct (generate_report_ok now self (print MsgSaving w)) as (r & ->).
  rewrite bind_Ok. cbv beta iota.
  assert (In [] (take 100 (clusters self))) as Hin.
  { apply list_elem_of_In, list_elem_of_lookup. exists i.
    rewrite lookup_take_lt by exact Hi. exact Hc. }
  rewrite (clusters_data_from_raise _ 0 Hin).
  destruct (clusters self) as [|c cs]; [destruct i; discriminate|]. reflexivity.
Qed.
End SaveExtras.


(** ** The whole run *)

Section RunExtras.
Context {rt : Runtime}.

(** [analyze] on a corpus that exists: the analyzer it leaves, the
    report it returns and the files it writes. *)
Lemma analyze_some_exact rows now1 now2 self w :
  exists self' r data w',
    analyze (Some rows) now1 now2 self w = Ok (Some (restamp now2 r), self', w')
    /\ articles self' = rows
    /\ clusters self' = sort_by_len_desc (groups_spec rows)
    /\ duplicates self'
       = (if len rows <=? 10000
          then similar_pairs_spec (similarity_threshold self) 3 rows
          else duplicates self)
    /\ similarity_threshold self' = similarity_threshold self
    /\ input_dir self' = input_dir self
    /\ (exists w0, generate_report now1 self' w0 = Ok (r, print MsgGenerating w0))
    /\ written w' = written w ++ saved_files self' r data.
Proof.
  unfold analyze. rewrite load_articles_some. cbv beta iota. simpl negb. cbv iota.
  set (self1 := set_articles self rows).
  set (w1 := print (MsgLoaded (len rows)) (print MsgLoading w)).
  destruct (cluster_by_exact_match_ok self1 w1) as (w2 & -> & Hw2 & _).
  cbv beta iota.
  set (self2 := set_clusters self1 (sort_by_len_desc (groups_spec (articles self1)))).
  change (articles self2) with rows. unfold max_articles_for_pairwise.
  assert (forall self3 w3,
            clusters self3 = sort_by_len_desc (groups_spec rows) ->
            written w3 = written w ->
            exists r data w',
              (w4 ← save_results now1 self3 w3;
               '(r, w5) ← generate_report now2 self3 w4;
               Ok (Some r, self3, w5))
              = Ok (Some (restamp now2 r), self3, w')
              /\ (exists w0, generate_report now1 self3 w0 = Ok (r, print MsgGenerating w0))
              /\ written w' = written w ++ saved_files self3 r data) as Htail.
  { intros self3 w3 Hcl Hwr.
    destruct (save_results_exact now1 self3 w3) as (r & data & Hr & _ & ->).
    { rewrite Hcl. apply Forall_take, clusters_nonempty. }
    rewrite bind_Ok.
    match goal with
    | |- context [generate_report now2 self3 ?w4] =>
        destruct (generate_report_restamp now1 now2 self3 _ w4 _ _ Hr) as (-> & _ & _)
    end.
    rewrite bind_Ok. cbv beta iota.
    exists r, data. eexists. split; [reflexivity|]. split; [eauto|].
    simpl. rewrite Hwr. reflexivity. }
  destruct (Z.leb_spec (len rows) 10000) as [Hle|Hgt].
  - rewrite find_similar_pairs_exact. cbv zeta. rewrite bind_Ok. cbv beta iota.
    rewrite bind_Ok. cbv beta iota.
    match goal with
    | |- context [save_results now1 ?s3 ?w3] =>
        destruct (Htail s3 w3) as (r & data & w' & -> & Hrep & Hwr)
    end; [reflexivity|simpl; rewrite Hw2; reflexivity|].
    eexists _, r, data, w'. split; [reflexivity|]. repeat (split; [reflexivity|]).
    split; [exact Hrep|exact Hwr].
  - rewrite bind_Ok. cbv beta iota.
    match goal with
    | |- context [save_results now1 ?s3 ?w3] =>
        destruct (Htail s3 w3) as (r & data & w' & -> & Hrep & Hwr)
    end; [reflexivity|simpl; rewrite Hw2; reflexivity|].
    eexists _, r, data, w'. split; [reflexivity|]. repeat (split; [reflexivity|]).
    split; [exact Hrep|exact Hwr].
Qed.


(** X20.  [main] on arguments that have been parsed and a corpus that is
    missing or has been read into rows.  Failures of the parsing, of the
    reading, of the writing of files and of printing are not covered; of
    the exceptions of the model, a division by zero and an index out of
    range, none arises.  Without a corpus [main] prints no summary and
    writes no file.  With the rows of a corpus it prints the summary,
    whose figures are those of the report written to
    similarity_report.json; the report carries the directory given, the
    threshold given, 0.85 when none is, and the number of rows. *)
Theorem main_summary dir thr csv now1 now2 w :
  exists w' lines,
    main dir thr csv now1 now2 w = Ok (w', lines)
    /\ match csv with
       | None => lines = [] /\ written w' = written w
       | Some rows =>
           exists r,
             In ("similarity_report.json"%string, ReportJson r) (written w')
             /\ input_directory r = dir
             /\ report_similarity_threshold r
                = match thr with Some t => t | None => default_threshold end
             /\ total_articles_analyzed r = len rows
             /\ lines
                = [ LineRule; LineComplete; LineRule;
                    LineTotal (total_articles_analyzed r);
                    LineClusters (num_clusters r);
                    LineDuplication (duplication_rate r);
                    LineUniqueness (uniqueness_rate r);
                    LineSavedIn dir ]
       end.
Proof.
  unfold main. destruct csv as [rows|].
  - match goal with
    | |- context [analyze (Some rows) now1 now2 ?s w] =>
        destruct (analyze_some_exact rows now1 now2 s w)
          as (self' & r & data & w' & -> & Harts & _ & _ & Hthr & Hdir & (w0 & Hr) & Hw)
    end.
    rewrite bind_Ok. cbv beta iota. eexists _, _. split; [reflexivity|].
    exists r. split; [rewrite Hw; apply in_or_app; right; left; reflexivity|].
    destruct (generate_report_counts now1 self' w0) as (r' & Hr' & Htot & _).
    rewrite Hr in Hr'. injection Hr' as <-.
    assert (input_directory r = input_dir self'
            /\ report_similarity_threshold r = similarity_threshold self') as [Hd Ht].
    { revert Hr. unfold generate_report, py_truediv.
      destruct (0 <? len (articles self'));
        [destruct (len (articles self') =? 0); [discriminate|]|];
        intros [= <-]; split; reflexivity. }
    rewrite Hd, Ht, Hdir, Hthr, Htot, Harts. repeat split.
    simpl. rewrite Htot, Harts. reflexivity.
  - eexists _, _. split; [reflexivity|]. split; reflexivity.
Qed.
End RunExtras.


(** ** Instances of the further properties *)

Lemma calculate_jaccard_similarity_range_witness :
  truediv_in_unit (@truediv exact_runtime)
  /\ exists q,
       @calculate_jaccard_similarity exact_runtime
         {[ str "ab" ]} {[ str "ab"; str "cd" ]} = Ok q
       /\ (0 <= q <= 1)%Q.
Proof.
  split; [exact exact_truediv_in_unit|].
  destruct (@calculate_jaccard_similarity_range exact_runtime
              {[ str "ab" ]} {[ str "ab"; str "cd" ]} exact_truediv_in_unit)
    as (q & Hq & Hr & _).
  exists q. split; [exact Hq|exact Hr].
Defined.

Lemma calculate_jaccard_similarity_same_witness :
  truediv_exact_one (@truediv exact_runtime)
  /\ ({[ str "ab" ]} : gset pystr) <> ∅
  /\ exists q,
       @calculate_jaccard_similarity exact_runtime {[ str "ab" ]} {[ str "ab" ]} = Ok q
       /\ (q == 1)%Q.
Proof.
  assert (({[ str "ab" ]} : gset pystr) <> ∅) as Hne
    by (intros E; apply (f_equal size) in E; vm_compute in E; discriminate).
  split; [exact exact_truediv_exact_one|]. split; [exact Hne|].
  apply (@calculate_jaccard_similarity_same exact_runtime {[ str "ab" ]}
           exact_truediv_exact_one Hne).
Defined.

Lemma generate_ngrams_of_normalized_witness :
  lower_on_ascii (@lower exact_runtime)
  /\ @generate_ngrams exact_runtime
       (PStr (@normalize_text exact_runtime (PStr (str "Foo  Bar!")))) 3
     = @generate_ngrams exact_runtime (PStr (str "Foo  Bar!")) 3.
Proof.
  split; [intros s _; reflexivity|].
  apply (@generate_ngrams_of_normalized exact_runtime). intros s _. reflexivity.
Defined.

Lemma normalize_text_ignores_case_witness :
  lower_on_ascii (@lower exact_runtime)
  /\ forallb is_ascii (str "Foo Bar") = true
  /\ forallb is_ascii (str "fOO bAR") = true
  /\ map ascii_lower (str "Foo Bar") = map ascii_lower (str "fOO bAR")
  /\ @normalize_text exact_runtime (PStr (str "Foo Bar"))
     = @normalize_text exact_runtime (PStr (str "fOO bAR")).
Proof.
  split; [intros s _; reflexivity|]. split; [reflexivity|].
  split; [reflexivity|]. split; [reflexivity|].
  apply (@normalize_text_ignores_case exact_runtime);
    [intros s _; reflexivity|reflexivity|reflexivity|reflexivity].
Defined.

Lemma normalize_text_without_alnum_witness :
  lower_on_ascii (@lower exact_runtime)
  /\ forallb is_ascii (str "?! -") = true
  /\ (forall c, In c (str "?! -") -> is_ascii_alnum c = false)
  /\ @normalize_text exact_runtime (PStr (str "?! -")) = [].
Proof.
  assert (forall c, In c (str "?! -") -> is_ascii_alnum c = false) as Hno.
  { intros c Hc. simpl in Hc.
    destruct Hc as [<-|[<-|[<-|[<-|[]]]]]; reflexivity. }
  split; [intros s _; reflexivity|]. split; [reflexivity|]. split; [exact Hno|].
  apply (@normalize_text_without_alnum exact_runtime);
    [intros s _; reflexivity|reflexivity|exact Hno].
Defined.

Lemma find_similar_pairs_monotone_witness :
  articles (analyzer_of sample_corpus (Fin 0.5))
  = articles (analyzer_of sample_corpus (Fin 0.85))
  /\ float_le (similarity_threshold (analyzer_of sample_corpus (Fin 0.5)))
       (similarity_threshold (analyzer_of sample_corpus (Fin 0.85))) = true
  /\ exists ps1 ps2 s1 s2 w1' w2',
       @find_similar_pairs exact_runtime 3 (analyzer_of sample_corpus (Fin 0.5)) empty_world
       = Ok (ps1, s1, w1')
       /\ @find_similar_pairs exact_runtime 3 (analyzer_of sample_corpus (Fin 0.85)) empty_world
          = Ok (ps2, s2, w2')
       /\ sublist ps2 ps1.
Proof.
  split; [reflexivity|]. split; [reflexivity|].
  apply (@find_similar_pairs_monotone exact_runtime 3
           (analyzer_of sample_corpus (Fin 0.5)) (analyzer_of sample_corpus (Fin 0.85))
           empty_world empty_world); reflexivity.
Defined.

Lemma find_similar_pairs_nan_witness :
  similarity_threshold (analyzer_of sample_corpus NaN) = NaN
  /\ exists w',
       @find_similar_pairs exact_runtime 3 (analyzer_of sample_corpus NaN) empty_world
       = Ok ([], set_duplicates (analyzer_of sample_corpus NaN) [], w').
Proof.
  split; [reflexivity|].
  apply (@find_similar_pairs_nan exact_runtime 3 (analyzer_of sample_corpus NaN)
           empty_world). reflexivity.
Defined.

Lemma exact_round4_keeps_one : round4_keeps_one (@round4 exact_runtime).
Proof.
  intros [n d] Hq. simpl. rewrite Qred_correct.
  assert (n = Zpos d) as -> by (unfold Qeq in Hq; simpl in Hq; lia).
  unfold round_half_even. simpl Qnum. simpl Qden.
  replace (Zpos (d * 1)) with (Zpos d) by lia.
  replace (Z.pos d * 10000) with (10000 * Z.pos d) by lia.
  rewrite Z_mod_mult, Z_div_mult by lia.
  change (2 * 0) with 0.
  destruct (Z.ltb_spec 0 (Z.pos d)) as [_|E]; [reflexivity|lia].
Qed.

Lemma exact_duplicates_are_similar_pairs_witness :
  truediv_exact_one (@truediv exact_runtime)
  /\ round4_keeps_one (@round4 exact_runtime)
  /\ sample_corpus !! 0%nat = Some (titled "Foo Bar" "u1")
  /\ sample_corpus !! 1%nat = Some (titled "foo  bar!" "u2")
  /\ (0 < 1)%nat
  /\ @key_of exact_runtime (titled "Foo Bar" "u1")
     = @key_of exact_runtime (titled "foo  bar!" "u2")
  /\ float_le (Fin 0.85) (Fin 1) = true
  /\ exists ps self' w' p,
       @find_similar_pairs exact_runtime 3 (analyzer_of sample_corpus (Fin 0.85)) empty_world
       = Ok (ps, self', w')
       /\ In p ps
       /\ article1 p = make_ref (titled "Foo Bar" "u1")
       /\ article2 p = make_ref (titled "foo  bar!" "u2")
       /\ (similarity p == 1)%Q.
Proof.
  assert (@key_of exact_runtime (titled "Foo Bar" "u1")
          = @key_of exact_runtime (titled "foo  bar!" "u2")) as Hkey
    by (vm_compute; reflexivity).
  split; [exact exact_truediv_exact_one|]. split; [exact exact_round4_keeps_one|].
  split; [reflexivity|]. split; [reflexivity|]. split; [lia|].
  split; [exact Hkey|]. split; [reflexivity|].
  apply (@exact_duplicates_are_similar_pairs exact_runtime 3
           (analyzer_of sample_corpus (Fin 0.85)) empty_world 0%nat 1%nat
           (titled "Foo Bar" "u1") (titled "foo  bar!" "u2"));
    [exact exact_truediv_exact_one|exact exact_round4_keeps_one
    |reflexivity|reflexivity|lia|exact Hkey|reflexivity].
Defined.

Lemma save_results_files_witness :
  (forall i, (i < 100)%nat ->
     clusters (set_clusters (analyzer_of aab_corpus (Fin 0.85))
                 [[titled "A" "u1"; titled "A" "u2"]]) !! i <> Some [])
  /\ exists r (data : list cluster_entry) w' w0,
       @save_results exact_runtime "now"
         (set_clusters (analyzer_of aab_corpus (Fin 0.85))
            [[titled "A" "u1"; titled "A" "u2"]]) empty_world = Ok w'
       /\ @generate_report exact_runtime "now"
            (set_clusters (analyzer_of aab_corpus (Fin 0.85))
               [[titled "A" "u1"; titled "A" "u2"]]) (print MsgSaving empty_world)
          = Ok (r, w0)
       /\ length data = 1%nat.
Proof.
  assert (forall i, (i < 100)%nat ->
            clusters (set_clusters (analyzer_of aab_corpus (Fin 0.85))
                        [[titled "A" "u1"; titled "A" "u2"]]) !! i <> Some []) as Hne.
  { intros [|i] _; simpl; [discriminate|]. rewrite lookup_nil. discriminate. }
  split; [exact Hne|].
  destruct (@save_results_files exact_runtime "now"
              (set_clusters (analyzer_of aab_corpus (Fin 0.85))
                 [[titled "A" "u1"; titled "A" "u2"]]) empty_world Hne)
    as (r & data & w' & w0 & Hs & Hr & _ & _ & Hl & _).
  exists r, data, w', w0. split; [exact Hs|]. split; [exact Hr|exact Hl].
Defined.

Lemma save_results_empty_cluster_witness :
  (0 < 100)%nat
  /\ clusters (set_clusters (init "data" (Fin 0.85)) [[]]) !! 0%nat = Some []
  /\ @save_results exact_runtime "now"
       (set_clusters (init "data" (Fin 0.85)) [[]]) empty_world
     = Raise IndexError.
Proof.
  split; [lia|]. split; [reflexivity|].
  apply (@save_results_empty_cluster exact_runtime "now"
           (set_clusters (init "data" (Fin 0.85)) [[]]) empty_world 0%nat);
    [lia|reflexivity].
Defined.
